(** * s3-plugin-webpack: a shallow embedding of [src/helpers.ts] and
      [src/s3_plugin.ts], and the properties of its upload pipeline.

    Strings are [string] (sequences of one-byte code units), JavaScript
    objects used as records are Rocq records, objects used as parameter
    maps are [gmap string _], exceptions are the [Throw] case of [result],
    and the mutable plugin instance, the compilation's error list and the
    calls made to the AWS clients are threaded through a state monad. *)

From Stdlib Require Import ZArith Lia Bool Ascii String DecimalString.
From stdpp Require Import base option list strings gmap fin_maps.

Local Open Scope string_scope.
Local Open Scope list_scope.

(** ** JavaScript values and exceptions *)

Module JS.

(** The values that flow through rule functions and upload parameters.
    [VStream p] is the [ReadStream] that [fs.createReadStream p] returns,
    [VObject tag] any other object that is neither a plain object nor an
    array (a [Buffer], a [Date], ...). *)
Inductive val : Type :=
| VUndefined
| VNull
| VBool (b : bool)
| VNumber (z : Z)
| VNaN
| VString (s : string)
| VStream (path : string)
| VObject (tag : string).

#[global] Instance val_eq_dec : EqDecision val.
Proof. solve_decision. Defined.

(** [ToBoolean]: what [!!v], [v ? _ : _] and [v && _] test. *)
Definition truthy (v : val) : bool :=
  match v with
  | VUndefined | VNull | VNaN => false
  | VBool b => b
  | VNumber z => negb (z =? 0)%Z
  | VString s => negb (String.eqb s "")
  | VStream _ | VObject _ => true
  end.

(** A thrown [Error]: the constructor's name and the message. *)
Record Error : Type := mkError { err_name : string; err_message : string }.

Inductive result (A : Type) : Type :=
| Ok (a : A)
| Throw (e : Error).
Arguments Ok {A} a.
Arguments Throw {A} e.

#[global] Instance Error_eq_dec : EqDecision Error.
Proof. solve_decision. Defined.

#[global] Instance result_eq_dec {A} `{EqDecision A} : EqDecision (result A).
Proof. solve_decision. Defined.

Definition bind {A B} (r : result A) (k : A -> result B) : result B :=
  match r with
  | Ok a => k a
  | Throw e => Throw e
  end.

(** [Array.prototype.every] with a callback that may throw: members are
    visited left to right, the first [false] stops the iteration and the
    members after it are not evaluated. *)
Fixpoint every {A} (f : A -> result bool) (l : list A) : result bool :=
  match l with
  | [] => Ok true
  | x :: l' =>
      bind (f x) (fun b => if b then every f l' else Ok false)
  end.

(** [_.some] with a callback that may throw. *)
Fixpoint some {A} (f : A -> result bool) (l : list A) : result bool :=
  match l with
  | [] => Ok false
  | x :: l' =>
      bind (f x) (fun b => if b then Ok true else some f l')
  end.

End JS.
Export JS.

Notation "x <-? r ;; k" := (JS.bind r (fun x => k))
  (at level 100, r at next level, right associativity).

(** ** Regular expressions

    The fragment of the ECMAScript pattern language that the sources use
    in their own literals ([/\/?(\?|#|$)/], [/\.(html|css)/],
    [new RegExp('.DS_Store')]), with its backtracking semantics: pattern
    characters, [.], [$] (no [m] flag), sequence, alternation tried left
    to right, the greedy [?], and numbered capture groups. *)

Module JsRegExp.

Inductive regexp : Type :=
| Empty
| Chr (c : ascii)
| Dot
| Eos
| Seq (r1 r2 : regexp)
| Alt (r1 r2 : regexp)
| Opt (r : regexp)
| Group (n : nat) (r : regexp).

Definition captures : Type := list (nat * string).

(** [.] matches any code unit but a line terminator. *)
Definition is_line_terminator (c : ascii) : bool :=
  (Ascii.eqb c "010" || Ascii.eqb c "013")%char.

(** What the matcher consumed between input [s] and its suffix [s']. *)
Definition consumed (s s' : string) : string :=
  String.substring 0 (String.length s - String.length s') s.

(** The matcher in continuation-passing style: [m r s caps k] matches [r]
    at the head of [s] and hands the rest of the input to [k]; when [k]
    fails the matcher backtracks into [r]. *)
Fixpoint m {R} (r : regexp) (s : string) (caps : captures)
    (k : string -> captures -> option R) : option R :=
  match r with
  | Empty => k s caps
  | Chr c =>
      match s with
      | String c' s' => if Ascii.eqb c c' then k s' caps else None
      | EmptyString => None
      end
  | Dot =>
      match s with
      | String c' s' => if is_line_terminator c' then None else k s' caps
      | EmptyString => None
      end
  | Eos =>
      match s with
      | EmptyString => k s caps
      | String _ _ => None
      end
  | Seq r1 r2 => m r1 s caps (fun s' caps' => m r2 s' caps' k)
  | Alt r1 r2 =>
      match m r1 s caps k with
      | Some x => Some x
      | None => m r2 s caps k
      end
  | Opt r1 =>
      match m r1 s caps k with
      | Some x => Some x
      | None => k s caps
      end
  | Group n r1 =>
      m r1 s caps (fun s' caps' => k s' ((n, consumed s s') :: caps'))
  end.

(** A match anchored at the head of [s]: the input left after it and the
    captures. *)
Definition match_here (r : regexp) (s : string) : option (string * captures) :=
  m r s [] (fun s' caps => Some (s', caps)).

(** [RegExp.prototype.exec] without the [g] and [y] flags: the leftmost
    start position at which the pattern matches. *)
Fixpoint search (r : regexp) (s : string) : option (string * captures) :=
  match match_here r s with
  | Some x => Some x
  | None =>
      match s with
      | EmptyString => None
      | String _ s' => search r s'
      end
  end.

(** [RegExp.prototype.test]. *)
Definition test (r : regexp) (s : string) : bool :=
  bool_decide (is_Some (search r s)).

(** A replacement string, split at its [$n] references. *)
Inductive piece : Type :=
| Lit (s : string)
| Ref (n : nat).

Fixpoint capture (n : nat) (caps : captures) : string :=
  match caps with
  | [] => ""
  | (n', s) :: caps' => if Nat.eqb n n' then s else capture n caps'
  end.

Fixpoint expand (tmpl : list piece) (caps : captures) : string :=
  match tmpl with
  | [] => ""
  | Lit s :: tmpl' => s +:+ expand tmpl' caps
  | Ref n :: tmpl' => capture n caps +:+ expand tmpl' caps
  end.

Fixpoint replace_first (r : regexp) (tmpl : list piece) (s : string) : option string :=
  match match_here r s with
  | Some (rest, caps) => Some (expand tmpl caps +:+ rest)
  | None =>
      match s with
      | EmptyString => None
      | String c s' => String c <$> replace_first r tmpl s'
      end
  end.

(** [String.prototype.replace] with a pattern that has no [g] flag: the
    first match is replaced, a string without a match is returned as it
    is. *)
Definition replace (r : regexp) (tmpl : list piece) (s : string) : string :=
  default s (replace_first r tmpl s).

(** The characters with a meaning of their own in a pattern. *)
Definition syntax_char (c : ascii) : bool :=
  bool_decide (c ∈ list_ascii_of_string "^$\.*+?()[]{}|").

(** [new RegExp(source)] on the fragment: a recursive-descent parser of
    Disjunction / Alternative / Term / Atom.  [g] is the number of the
    next capture group.  [None] is a source this fragment does not
    cover, or one that ECMAScript rejects. *)
Fixpoint disjunction (fuel : nat) (s : string) (g : nat)
    : option (regexp * string * nat) :=
  match fuel with
  | 0 => None
  | S fuel' =>
      '(r1, s1, g1) ← alternative fuel' s g;
      match s1 with
      | String "|" s2 =>
          '(r2, s3, g2) ← disjunction fuel' s2 g1;
          Some (Alt r1 r2, s3, g2)
      | _ => Some (r1, s1, g1)
      end
  end
with alternative (fuel : nat) (s : string) (g : nat)
    : option (regexp * string * nat) :=
  match fuel with
  | 0 => None
  | S fuel' =>
      match s with
      | EmptyString | String "|" _ | String ")" _ => Some (Empty, s, g)
      | _ =>
          '(t, s1, g1) ← term fuel' s g;
          '(r, s2, g2) ← alternative fuel' s1 g1;
          Some (match r with Empty => t | _ => Seq t r end, s2, g2)
      end
  end
with term (fuel : nat) (s : string) (g : nat)
    : option (regexp * string * nat) :=
  match fuel with
  | 0 => None
  | S fuel' =>
      match s with
      | String "$" s1 => Some (Eos, s1, g)
      | _ =>
          '(a, s1, g1) ← atom fuel' s g;
          match s1 with
          | String "?" s2 => Some (Opt a, s2, g1)
          | _ => Some (a, s1, g1)
          end
      end
  end
with atom (fuel : nat) (s : string) (g : nat)
    : option (regexp * string * nat) :=
  match fuel with
  | 0 => None
  | S fuel' =>
      match s with
      | EmptyString => None
      | String "." s1 => Some (Dot, s1, g)
      | String "\" (String c s1) =>
          if syntax_char c || Ascii.eqb c "/" then Some (Chr c, s1, g) else None
      | String "(" s1 =>
          '(r, s2, g1) ← disjunction fuel' s1 (S g);
          match s2 with
          | String ")" s3 => Some (Group g r, s3, g1)
          | _ => None
          end
      | String c s1 => if syntax_char c then None else Some (Chr c, s1, g)
      end
  end.

Definition compile (source : string) : result regexp :=
  match disjunction (4 * String.length source + 8) source 1 with
  | Some (r, EmptyString, _) => Ok r
  | _ => Throw (mkError "SyntaxError" ("Invalid regular expression: /" +:+ source +:+ "/"))
  end.

End JsRegExp.

(** ** [src/helpers.ts] *)

Definition S3_PATH_SEP : string := "/".

(** The literal [/\/?(\?|#|$)/]. *)
Definition TRAILING_SEP_RE : JsRegExp.regexp :=
  JsRegExp.Seq (JsRegExp.Opt (JsRegExp.Chr "/"))
    (JsRegExp.Group 1
       (JsRegExp.Alt (JsRegExp.Chr "?")
          (JsRegExp.Alt (JsRegExp.Chr "#") JsRegExp.Eos))).

(** [fPath ? fPath.replace(/\/?(\?|#|$)/, '/$1') : fPath] *)
Definition addTrailingS3Sep (fPath : string) : string :=
  if negb (String.eqb fPath "")
  then JsRegExp.replace TRAILING_SEP_RE [JsRegExp.Lit "/"; JsRegExp.Ref 1] fPath
  else fPath.



Definition UPLOAD_IGNORES : list string := [".DS_Store"].

Definition REQUIRED_S3_UP_OPTS : list string := ["Bucket"].

Record File : Type := mkFile { path : string; name : string }.

(** The part of the host that user-supplied patterns go through:
    [RegExp] objects handed to the plugin ([include], [exclude],
    [priority]) and [new RegExp(rule)] on a string rule.  [RegExp_test]
    is [RegExp.prototype.test] on a pattern without the [g] and [y] flags,
    whose result depends on the subject alone. *)
Class RegExpEngine : Type := {
  RegExp : Type;
  RegExp_new : string -> result RegExp;
  RegExp_test : RegExp -> string -> bool
}.

Section Rules.
Context `{RegExpEngine}.
Local Set Warnings "-register-all".

(** What an [include] or [exclude] option can hold at run time that is
    none of the four rule shapes. *)
Inductive NonRule : Type :=
| NUndefined
| NNull
| NBool (b : bool)
| NNumber (z : Z)
| NObject (tag : string).

Definition NonRule_val (v : NonRule) : val :=
  match v with
  | NUndefined => VUndefined
  | NNull => VNull
  | NBool b => VBool b
  | NNumber z => VNumber z
  | NObject tag => VObject tag
  end.

(** [Rule | Rule[]]: the run-time shapes that [testRule] tells apart. *)
Inductive Rule : Type :=
| RRegExp (re : RegExp)
| RFunction (f : string -> result val)
| RArray (rules : list Rule)
| RString (s : string)
| ROther (v : NonRule).

Fixpoint testRule (rule : Rule) (subject : string) : result bool :=
  match rule with
  | RRegExp re => Ok (RegExp_test re subject)
  | RFunction f => v <-? f subject ;; Ok (negb (negb (truthy v)))
  | RArray rules => every (fun condition => testRule condition subject) rules
  | RString s => re <-? RegExp_new s ;; Ok (RegExp_test re subject)
  | ROther _ => Throw (mkError "Error" "Invalid include / exclude rule")
  end.

(** [rule ? _ : _] on an option that holds a rule. *)
Definition Rule_truthy (rule : Rule) : bool :=
  match rule with
  | RRegExp _ | RFunction _ | RArray _ => true
  | RString s => truthy (VString s)
  | ROther v => truthy (NonRule_val v)
  end.

End Rules.


(** ** Promises

    A promise is represented by the state it is in at the instant the
    remote services are observed: the settlements of the requests sent to
    S3 and CloudFront are given by the [Remote] record below, and every
    promise of the plugin is a function of them.  Reaction jobs are taken
    to run as soon as the promise they wait for settles. *)

Inductive Promise (A : Type) : Type :=
| Pending
| Fulfilled (a : A)
| Rejected (e : Error).
Arguments Pending {A}.
Arguments Fulfilled {A} a.
Arguments Rejected {A} e.

Definition settled {A} (p : Promise A) : bool :=
  match p with
  | Pending => false
  | Fulfilled _ | Rejected _ => true
  end.

(** [Promise.all]: rejected as soon as one member is, fulfilled with all
    the values when every member is.  With several rejected members the
    reason kept is that of the first in the list. *)
Fixpoint Promise_all {A} (ps : list (Promise A)) : Promise (list A) :=
  match ps with
  | [] => Fulfilled []
  | p :: ps' =>
      match p, Promise_all ps' with
      | Rejected e, _ => Rejected e
      | _, Rejected e => Rejected e
      | Fulfilled a, Fulfilled l => Fulfilled (a :: l)
      | _, _ => Pending
      end
  end.

Definition DEFAULT_TRANSFORM (item : string) : Promise string := Fulfilled item.

(** ** The host: Node's [path], [recursive-readdir], [mime], [cdnizer]
    and the clock. *)

Class Host : Type := {
  (** [path.sep], one character. *)
  PATH_SEP : ascii;
  (** [path.resolve(a, b)] *)
  path_resolve : string -> string -> string;
  (** [readDir(dir, ignores, callback)]: the error or the files. *)
  readDir : string -> result (list string);
  (** [mime.getType(name)], [None] for [null]. *)
  mime_getType : string -> option string;
  (** [cdnizer(options)], as a function of [options.files]. *)
  cdnizer_new : list string -> string -> string;
  (** [Date.now()] at its n-th call. *)
  Date_now : nat -> Z
}.

(** The settlement of the requests sent out, at the instant of
    observation: of the [ManagedUpload] that the n-th call of
    [client.upload] returned, and what the callback of the n-th
    [createInvalidation] was called with. *)
Record Remote : Type := {
  upload_promise : nat -> Promise unit;
  upload_totalBytes : nat -> Z;
  invalidation_promise : nat -> Promise string
}.

(** ** The plugin instance *)

Inductive optionConfig : Type :=
| Const (v : val)
| Func (f : string -> string -> val).

(** [cloudfrontInvalidateOptions.DistributionId] *)
Inductive DistributionIds : Type :=
| DNone
| DString (s : string)
| DArray (l : list string).

Record CloudfrontInvalidateOptions : Type := {
  DistributionId : DistributionIds;
  Items : list string
}.

Record ClientConfiguration : Type := {
  accessKeyId : option string;
  secretAccessKey : option string;
  sessionToken : option string
}.

(** [cdnizerOptions]: its [files] entry and its other keys. *)
Record CdnizerOptions : Type := {
  files : option (list string);
  cdn_keys : list string
}.

Record InvalidationRequest : Type := {
  inv_DistributionId : string;
  CallerReference : string;
  Quantity : nat;
  inv_Items : list string
}.

Section Plugin.
Context `{RegExpEngine} `{Host}.
Variable remote : Remote.

Record PluginOptions : Type := {
  directory : option string;
  include : Rule;
  exclude : Rule;
  basePath : string;
  priority : option (list RegExp);
  htmlFiles : option (list string);
  progress : bool
}.

Inductive HtmlFiles : Type :=
| HNone
| HString (s : string)
| HArray (l : list string).

Record ConstructorOptions : Type := {
  c_include : Rule;
  c_exclude : Rule;
  c_progress : val;
  c_basePath : option string;
  c_directory : option string;
  c_htmlFiles : HtmlFiles;
  c_basePathTransform : option (string -> Promise string);
  c_s3Options : option ClientConfiguration;
  c_cdnizerOptions : option CdnizerOptions;
  c_s3UploadOptions : gmap string optionConfig;
  c_cloudfrontInvalidateOptions : option CloudfrontInvalidateOptions;
  c_priority : option (list RegExp)
}.

Record S3Plugin : Type := {
  isConnected : bool;
  uploadOptions : gmap string optionConfig;
  cloudfrontInvalidateOptions : option CloudfrontInvalidateOptions;
  basePathTransform : string -> Promise string;
  options : PluginOptions;
  s3Options : ClientConfiguration;
  noCdnizer : bool;
  cdnizerOptions : CdnizerOptions;
  cdnizer : option (string -> string);
  client : option ClientConfiguration
}.

Definition str_truthy (o : option string) : bool :=
  match o with
  | Some s => truthy (VString s)
  | None => false
  end.

Definition new_S3Plugin (opts : ConstructorOptions) : S3Plugin :=
  let cdnizerOptions := default {| files := None; cdn_keys := [] |} (c_cdnizerOptions opts) in
  let basePath :=
    if str_truthy (c_basePath opts)
    then addTrailingS3Sep (default "" (c_basePath opts))
    else "" in
  let noCdnizer :=
    match files cdnizerOptions, cdn_keys cdnizerOptions with
    | None, [] => true
    | _, _ => false
    end in
  {| isConnected := false;
     uploadOptions := c_s3UploadOptions opts;
     cloudfrontInvalidateOptions := c_cloudfrontInvalidateOptions opts;
     basePathTransform := default DEFAULT_TRANSFORM (c_basePathTransform opts);
     options :=
       {| directory := c_directory opts;
          include := c_include opts;
          exclude := c_exclude opts;
          basePath := basePath;
          priority := c_priority opts;
          htmlFiles :=
            match c_htmlFiles opts with
            | HNone => None
            | HString s => Some [s]
            | HArray l => Some l
            end;
          progress :=
            match c_progress opts with
            | VBool b => b
            | _ => true
            end |};
     s3Options := default {| accessKeyId := None; secretAccessKey := None; sessionToken := None |} (c_s3Options opts);
     noCdnizer := noCdnizer;
     cdnizerOptions :=
       if negb noCdnizer && negb (bool_decide (is_Some (files cdnizerOptions)))
       then {| files := Some []; cdn_keys := cdn_keys cdnizerOptions |}
       else cdnizerOptions;
     cdnizer := None;
     client := None |}.

(** *** The methods that only read the instance *)

Definition isIgnoredFile (file : string) : result bool :=
  some (fun ignore => re <-? JsRegExp.compile ignore ;; Ok (JsRegExp.test re file))
    UPLOAD_IGNORES.

Definition isIncludeAndNotExclude (this : S3Plugin) (file : string) : result bool :=
  let include := include (options this) in
  let exclude := exclude (options this) in
  isInclude <-? (if Rule_truthy include then testRule include file else Ok true) ;;
  isExclude <-? (if Rule_truthy exclude then testRule exclude file else Ok false) ;;
  Ok (isInclude && negb isExclude).

(** [files.reduce((res, file) => { if (...) res.push(file); return res }, [])] *)
Fixpoint filterAllowedFiles_from (this : S3Plugin) (res files : list File)
    : result (list File) :=
  match files with
  | [] => Ok res
  | file :: files' =>
      allowed <-? isIncludeAndNotExclude this (name file) ;;
      keep <-? (if allowed
                then ignored <-? isIgnoredFile (name file) ;; Ok (negb ignored)
                else Ok false) ;;
      filterAllowedFiles_from this (if keep then res ++ [file] else res) files'
  end.

Definition filterAllowedFiles (this : S3Plugin) (files : list File) : result (list File) :=
  filterAllowedFiles_from this [] files.

(** [_.remove(array, predicate)]: the removed elements, and the array
    that is left. *)
Definition lodash_remove {A} (predicate : A -> bool) (array : list A)
    : list A * list A :=
  (List.filter predicate array, List.filter (fun x => negb (predicate x)) array).

(** [priority.map((reg) => _.remove(remainingFiles, ...))]: the tiers, and
    what the calls leave in [remainingFiles]. *)
Fixpoint removeTiers (priority : list RegExp) (remainingFiles : list File)
    : list (list File) * list File :=
  match priority with
  | [] => ([], remainingFiles)
  | reg :: priority' =>
      let '(removed, remainingFiles') :=
        lodash_remove (fun file => RegExp_test reg (name file)) remainingFiles in
      let '(tiers, rest) := removeTiers priority' remainingFiles' in
      (removed :: tiers, rest)
  end.

Definition prioritizeFiles (this : S3Plugin) (files : list File) : list (list File) :=
  let priority := default [] (priority (options this)) in
  let remainingFiles := files in
  let '(prioritizedFiles, remainingFiles) := removeTiers priority remainingFiles in
  remainingFiles :: prioritizedFiles.

(** *** What a build pass acts on *)

Record World : Type := {
  (** the plugin instance *)
  this : S3Plugin;
  (** [compilation.errors] *)
  errors : list Error;
  (** the content of the files that [fs] reads and writes *)
  disk : gmap string string;
  (** the arguments of the calls of [client.upload], oldest first *)
  uploads : list (gmap string val);
  (** the arguments of the calls of [createInvalidation], oldest first *)
  invalidations : list InvalidationRequest;
  (** the total of the progress bar, once it exists *)
  progressBar : option Z;
  (** how many times [Date.now] was called *)
  clock : nat
}.

Definition with_this (f : S3Plugin -> S3Plugin) (w : World) : World :=
  {| this := f (this w); errors := errors w; disk := disk w; uploads := uploads w;
     invalidations := invalidations w; progressBar := progressBar w; clock := clock w |}.

Definition with_options (f : PluginOptions -> PluginOptions) (p : S3Plugin) : S3Plugin :=
  {| isConnected := isConnected p; uploadOptions := uploadOptions p;
     cloudfrontInvalidateOptions := cloudfrontInvalidateOptions p;
     basePathTransform := basePathTransform p; options := f (options p);
     s3Options := s3Options p; noCdnizer := noCdnizer p;
     cdnizerOptions := cdnizerOptions p; cdnizer := cdnizer p; client := client p |}.

Definition set_basePath (v : string) (o : PluginOptions) : PluginOptions :=
  {| directory := directory o; include := include o; exclude := exclude o;
     basePath := v; priority := priority o; htmlFiles := htmlFiles o;
     progress := progress o |}.

Definition set_directory (v : option string) (o : PluginOptions) : PluginOptions :=
  {| directory := v; include := include o; exclude := exclude o;
     basePath := basePath o; priority := priority o; htmlFiles := htmlFiles o;
     progress := progress o |}.

Definition set_client (c : ClientConfiguration) (p : S3Plugin) : S3Plugin :=
  {| isConnected := true; uploadOptions := uploadOptions p;
     cloudfrontInvalidateOptions := cloudfrontInvalidateOptions p;
     basePathTransform := basePathTransform p; options := options p;
     s3Options := s3Options p; noCdnizer := noCdnizer p;
     cdnizerOptions := cdnizerOptions p; cdnizer := cdnizer p; client := Some c |}.

Definition set_cdnizer (fs : list string) (c : option (string -> string)) (p : S3Plugin)
    : S3Plugin :=
  {| isConnected := isConnected p; uploadOptions := uploadOptions p;
     cloudfrontInvalidateOptions := cloudfrontInvalidateOptions p;
     basePathTransform := basePathTransform p; options := options p;
     s3Options := s3Options p; noCdnizer := noCdnizer p;
     cdnizerOptions := {| files := Some fs; cdn_keys := cdn_keys (cdnizerOptions p) |};
     cdnizer := c; client := client p |}.

Definition set_DistributionId (ids : list string) (p : S3Plugin) : S3Plugin :=
  {| isConnected := isConnected p; uploadOptions := uploadOptions p;
     cloudfrontInvalidateOptions :=
       (fun o => {| DistributionId := DArray ids; Items := Items o |})
         <$> cloudfrontInvalidateOptions p;
     basePathTransform := basePathTransform p; options := options p;
     s3Options := s3Options p; noCdnizer := noCdnizer p;
     cdnizerOptions := cdnizerOptions p; cdnizer := cdnizer p; client := client p |}.

(** The state and exception monad of the methods that change the
    instance, the compilation or the outside. *)
Definition M (A : Type) : Type := World -> World * result A.

Definition ret {A} (a : A) : M A := fun w => (w, Ok a).

Definition throw {A} (e : Error) : M A := fun w => (w, Throw e).

Definition bindM {A B} (c : M A) (k : A -> M B) : M B :=
  fun w =>
    match c w with
    | (w', Ok a) => k a w'
    | (w', Throw e) => (w', Throw e)
    end.

Definition gets {A} (f : World -> A) : M A := fun w => (w, Ok (f w)).

Definition modify (f : World -> World) : M unit := fun w => (f w, Ok tt).

Definition lift {A} (r : result A) : M A := fun w => (w, r).

End Plugin.

Notation "x <- c ;; k" := (bindM c (fun x => k))
  (at level 100, c at next level, right associativity).
Notation "c ;;; k" := (bindM c (fun _ => k))
  (at level 100, right associativity).

(** ** The rest of [src/helpers.ts], and the library calls it makes *)

(** [s.replace(pattern, replacement)] with a string pattern: the first
    occurrence. *)
Fixpoint String_replace (pattern replacement s : string) : string :=
  if String.prefix pattern s
  then replacement +:+ String.substring (String.length pattern)
                         (String.length s - String.length pattern) s
  else match s with
       | EmptyString => EmptyString
       | String c s' => String c (String_replace pattern replacement s')
       end.

(** [s.split(sep)] with a separator of one character. *)
Fixpoint String_split (sep : ascii) (s : string) : list string :=
  match s with
  | EmptyString => [EmptyString]
  | String c s' =>
      if Ascii.eqb c sep then EmptyString :: String_split sep s'
      else match String_split sep s' with
           | [] => [String c EmptyString]
           | piece :: pieces => String c piece :: pieces
           end
  end.

(** [l.join(sep)] *)
Fixpoint Array_join (sep : string) (l : list string) : string :=
  match l with
  | [] => EmptyString
  | [x] => x
  | x :: l' => x +:+ sep +:+ Array_join sep l'
  end.

(** [_.endsWith(s, target)] with a target of one character. *)
Fixpoint lodash_endsWith (s : string) (target : ascii) : bool :=
  match s with
  | EmptyString => false
  | String c EmptyString => Ascii.eqb c target
  | String _ s' => lodash_endsWith s' target
  end.

(** [n.toString()] on an integer. *)
Definition Number_toString (z : Z) : string :=
  DecimalString.NilZero.string_of_int (Z.to_int z).

(** [`${error}`] *)
Definition Error_toString (e : Error) : string :=
  err_name e +:+ ": " +:+ err_message e.

(** What [_.merge] does with one key whose source value is not a plain
    object or an array: an [undefined] source value is skipped when the
    destination has the key, any other source value is assigned. *)
Definition assignMergeValue (objValue srcValue : option val) : option val :=
  match srcValue with
  | None => objValue
  | Some VUndefined =>
      match objValue with
      | Some v => Some v
      | None => Some VUndefined
      end
  | Some v => Some v
  end.

(** [_.merge(object, source)] on parameter maps. *)
Definition lodash_merge (object source : gmap string val) : gmap string val :=
  merge assignMergeValue object source.

(** [_.uniq] by name, the first occurrence kept. *)
Fixpoint uniq_name (seen : list string) (l : list File) : list File :=
  match l with
  | [] => []
  | f :: l' =>
      if bool_decide (name f ∈ seen) then uniq_name seen l'
      else f :: uniq_name (name f :: seen) l'
  end.

Definition DEFAULT_UPLOAD_OPTIONS : gmap string val :=
  {[ "ACL" := VString "public-read" ]}.

(** The literal [/\.(html|css)/]. *)
Definition HTML_CSS_RE : JsRegExp.regexp :=
  JsRegExp.Seq (JsRegExp.Chr ".")
    (JsRegExp.Group 1
       (JsRegExp.Alt
          (JsRegExp.Seq (JsRegExp.Chr "h") (JsRegExp.Seq (JsRegExp.Chr "t")
             (JsRegExp.Seq (JsRegExp.Chr "m") (JsRegExp.Chr "l"))))
          (JsRegExp.Seq (JsRegExp.Chr "c") (JsRegExp.Seq (JsRegExp.Chr "s")
             (JsRegExp.Chr "s"))))).

Section Helpers.
Context `{Host}.

Definition addSeperatorToPath (fPath : string) : string :=
  if negb (truthy (VString fPath)) then fPath
  else if lodash_endsWith fPath PATH_SEP then fPath
       else fPath +:+ String PATH_SEP EmptyString.

Definition translatePathFromFiles (rootPath : string) (files : list string) : list File :=
  map (fun file =>
         {| path := file;
            name := Array_join S3_PATH_SEP
                      (String_split PATH_SEP (String_replace rootPath "" file)) |})
      files.

Definition getDirectoryFilesRecursive (dir : string) : Promise (list File) :=
  match readDir dir with
  | Throw err => Rejected err
  | Ok files => Fulfilled (translatePathFromFiles dir files)
  end.

End Helpers.

(** ** The methods of [S3Plugin] that act on the world *)

Record Compiler : Type := {
  output_path : option string;
  output_context : option string
}.

Record Compilation : Type := {
  assets : list string;
  outputOptions_path : string
}.

(** What [uploadFile] returns: the [ManagedUpload], known by the rank of
    its [client.upload] call, and [upload.promise()]. *)
Record UploadHandle : Type := {
  upload : nat;
  promise : Promise unit
}.

Section Methods.
Context `{RegExpEngine} `{Host}.
Variable remote : Remote.

Fixpoint mapM {A B} (f : A -> M B) (l : list A) : M (list B) :=
  match l with
  | [] => ret []
  | x :: l' => y <- f x ;; ys <- mapM f l' ;; ret (y :: ys)
  end.

(** [p.then(onFulfilled)]: the callback runs once [p] is fulfilled, what
    it throws rejects the derived promise, the promise it returns is
    adopted. *)
Definition then_ {A B} (p : Promise A) (onFulfilled : A -> M (Promise B)) : M (Promise B) :=
  match p with
  | Pending => ret Pending
  | Rejected e => ret (Rejected e)
  | Fulfilled a =>
      fun w =>
        match onFulfilled a w with
        | (w', Ok q) => (w', Ok q)
        | (w', Throw e) => (w', Ok (Rejected e))
        end
  end.

(** [p.catch(onRejected)] *)
Definition catch_ {A} (p : Promise A) (onRejected : Error -> M (Promise A)) : M (Promise A) :=
  match p with
  | Pending => ret Pending
  | Fulfilled a => ret (Fulfilled a)
  | Rejected e =>
      fun w =>
        match onRejected e w with
        | (w', Ok q) => (w', Ok q)
        | (w', Throw e') => (w', Ok (Rejected e'))
        end
  end.

(** [Promise.resolve] called as a plain function, which is how
    [array.map(Promise.resolve)] calls it: its [this] value is
    [undefined], and [Promise.resolve] throws a [TypeError] when its
    [this] value is not an object. *)
Definition Promise_resolve_unbound {A} (value : A) : M (Promise A) :=
  throw (mkError "TypeError" "PromiseResolve called on non-object").

Definition compileError (error : string) : M unit :=
  modify (fun w =>
    {| this := this w; errors := errors w ++ [mkError "Error" error]; disk := disk w;
       uploads := uploads w; invalidations := invalidations w;
       progressBar := progressBar w; clock := clock w |}).

Definition connect : M unit :=
  p <- gets this ;;
  if isConnected p then ret tt
  else modify (with_this (set_client (s3Options p))).

(** [this.client!.upload(params)] *)
Definition client_upload (params : gmap string val) : M nat :=
  p <- gets this ;;
  match client p with
  | None => throw (mkError "TypeError" "Cannot read properties of undefined (reading 'upload')")
  | Some _ =>
      n <- gets (fun w => length (uploads w)) ;;
      modify (fun w =>
        {| this := this w; errors := errors w; disk := disk w;
           uploads := uploads w ++ [params]; invalidations := invalidations w;
           progressBar := progressBar w; clock := clock w |}) ;;;
      ret n
  end.

(** [cloudfront.createInvalidation(params, callback)] inside
    [new Promise]: the request is sent, the promise settles with what
    the callback receives. *)
Definition createInvalidation (DistributionId : string) (Items : list string)
    : M (Promise string) :=
  t <- gets clock ;;
  n <- gets (fun w => length (invalidations w)) ;;
  modify (fun w =>
    {| this := this w; errors := errors w; disk := disk w; uploads := uploads w;
       invalidations :=
         invalidations w ++
           [{| inv_DistributionId := DistributionId;
               CallerReference := Number_toString (Date_now t);
               Quantity := length Items;
               inv_Items := Items |}];
       progressBar := progressBar w; clock := S (clock w) |}) ;;;
  ret (invalidation_promise remote n).

Definition transformBasePath : M (Promise unit) :=
  p <- gets this ;;
  then_ (basePathTransform p (basePath (options p))) (fun item =>
    let nPath := addTrailingS3Sep item in
    modify (with_this (with_options (set_basePath nPath))) ;;;
    ret (Fulfilled tt)).

Definition setupProgressBar (uploadFiles : list nat) : M unit :=
  let progressTotal :=
    fold_left (fun acc upload => upload_totalBytes remote upload + acc)%Z uploadFiles 0%Z in
  modify (fun w =>
    {| this := this w; errors := errors w; disk := disk w; uploads := uploads w;
       invalidations := invalidations w; progressBar := Some progressTotal;
       clock := clock w |}).

(** [_.isFunction(optionConfig) ? optionConfig(fileName, file) : optionConfig] *)
Definition resolveOption (fileName file : string) (optionConfig : optionConfig) : val :=
  match optionConfig with
  | Func f => f fileName file
  | Const v => v
  end.

Definition uploadFile (fileName file : string) : M UploadHandle :=
  p <- gets this ;;
  let Key := basePath (options p) +:+ fileName in
  let s3Params : gmap string val := resolveOption fileName file <$> uploadOptions p in
  (* avoid noname folders in bucket *)
  let Key :=
    match Key with
    | String "/" rest => rest
    | _ => Key
    end in
  let s3Params :=
    if bool_decide (default VUndefined (s3Params !! "ContentType") = VUndefined)
    then match mime_getType fileName with
         | Some contentType =>
             if truthy (VString contentType)
             then <["ContentType" := VString contentType]> s3Params
             else s3Params
         | None => s3Params
         end
    else s3Params in
  let Body := VStream file in
  upload <- client_upload
              (lodash_merge
                 (lodash_merge {[ "Key" := VString Key; "Body" := Body ]}
                    DEFAULT_UPLOAD_OPTIONS)
                 s3Params) ;;
  (if negb (noCdnizer p)
   then modify (with_this (fun q =>
          set_cdnizer (default [] (files (cdnizerOptions q)) ++ ["*" +:+ fileName +:+ "*"])
            (cdnizer q) q))
   else ret tt) ;;;
  ret {| upload := upload; promise := upload_promise remote upload |}.

Definition uploadPriorityChunk (priorityChunk : list File) : M (Promise (list unit)) :=
  uploadFiles <- mapM (fun file => uploadFile (name file) (path file)) priorityChunk ;;
  ret (Promise_all (map promise uploadFiles)).

Definition uploadInPriorityOrder (files : list File)
    : M (Promise (list (M (Promise (list unit))))) :=
  p <- gets this ;;
  let priorityChunks := prioritizeFiles p files in
  let uploadFunctions :=
    map (fun priorityChunk => uploadPriorityChunk priorityChunk) priorityChunks in
  resolved <- mapM Promise_resolve_unbound uploadFunctions ;;
  ret (Promise_all resolved).

(** The callback of [then] has no [return]: the promise of
    [uploadInPriorityOrder] and that of [Promise.all] are dropped and the
    derived promise is fulfilled with [undefined]. *)
Definition uploadFiles (files : list File) : M (Promise unit) :=
  transformed <- transformBasePath ;;
  then_ transformed (fun _ =>
    p <- gets this ;;
    match priority (options p) with
    | Some _ =>
        _ <- uploadInPriorityOrder files ;;
        ret (Fulfilled tt)
    | None =>
        uploadFiles <- mapM (fun file => uploadFile (name file) (path file)) files ;;
        (if progress (options p)
         then setupProgressBar (map upload uploadFiles)
         else ret tt) ;;;
        let _ := Promise_all (map Fulfilled uploadFiles) in
        ret (Fulfilled tt)
    end).

Definition DistributionIds_truthy (d : DistributionIds) : bool :=
  match d with
  | DNone => false
  | DString s => truthy (VString s)
  | DArray _ => true
  end.

(** [None] is the [null] of [Promise.resolve(null)]. *)
Definition invalidateCloudfront : M (Promise (option (list string))) :=
  p <- gets this ;;
  match cloudfrontInvalidateOptions p with
  | Some opts =>
      if DistributionIds_truthy (DistributionId opts)
      then
        let ids :=
          match DistributionId opts with
          | DArray l => l
          | DString s => [s]
          | DNone => []
          end in
        modify (with_this (set_DistributionId ids)) ;;;
        cloudfrontInvalidations <-
          mapM (fun DistributionId => createInvalidation DistributionId (Items opts)) ids ;;
        ret (match Promise_all cloudfrontInvalidations with
             | Fulfilled l => Fulfilled (Some l)
             | Rejected e => Rejected e
             | Pending => Pending
             end)
      else ret (Fulfilled None)
  | None => ret (Fulfilled None)
  end.

Definition handleErrors {A} (error : Error) : M (Promise A) :=
  compileError ("S3Plugin: " +:+ Error_toString error) ;;;
  throw error.

Definition getAllFilesRecursive (fPath : string) : Promise (list File) :=
  getDirectoryFilesRecursive fPath.

Definition addPathToFiles (files : list string) (fPath : string) : list File :=
  map (fun file => {| name := file; path := path_resolve fPath file |}) files.

Definition getAssetFiles (compilation : Compilation) : Promise (list File) :=
  Fulfilled
    (map (fun name => {| name := name;
                         path := outputOptions_path compilation +:+ "/" +:+ name |})
         (assets compilation)).

(** [fs.readFile] then [fs.writeFile] of the rewritten text.  A file
    that is not on the disk rejects the promise. *)
Definition cdnizeHtml (file : File) : M (Promise File) :=
  w <- gets (fun w => w) ;;
  match disk w !! path file with
  | None => ret (Rejected (mkError "Error" ("ENOENT: no such file or directory, open '" +:+ path file +:+ "'")))
  | Some data =>
      match cdnizer (this w) with
      | None => ret (Rejected (mkError "TypeError" "this.cdnizer is not a function"))
      | Some rewrite =>
          modify (fun w =>
            {| this := this w; errors := errors w;
               disk := <[path file := rewrite data]> (disk w);
               uploads := uploads w; invalidations := invalidations w;
               progressBar := progressBar w; clock := clock w |}) ;;;
          ret (Fulfilled file)
      end
  end.

Definition changeUrls (files : list File) : M (Promise (list File)) :=
  p <- gets this ;;
  if noCdnizer p then ret (Fulfilled files)
  else
    let directory := default "" (directory (options p)) in
    let htmlFiles := default [] (htmlFiles (options p)) in
    let allHtml :=
      if (0 <? length htmlFiles)%nat
      then addPathToFiles htmlFiles directory ++ files
      else files in
    let patterns := map (fun file => "{/,}*" +:+ name file +:+ "*") allHtml in
    modify (with_this (set_cdnizer patterns (Some (cdnizer_new patterns)))) ;;;
    let cdnizeFiles :=
      List.filter (fun file => JsRegExp.test HTML_CSS_RE (name file)) (uniq_name [] allHtml) in
    let otherFiles :=
      List.filter (fun file => negb (JsRegExp.test HTML_CSS_RE (name file)))
        (uniq_name [] allHtml) in
    cdnized <- mapM cdnizeHtml cdnizeFiles ;;
    ret (Promise_all (cdnized ++ map Fulfilled otherFiles)).

Definition handleFiles (files : list File) : M (Promise (option (list string))) :=
  changed <- changeUrls files ;;
  allowed <- then_ changed (fun files =>
               p <- gets this ;;
               files' <- lift (filterAllowedFiles p files) ;;
               ret (Fulfilled files')) ;;
  uploaded <- then_ allowed (fun files => uploadFiles files) ;;
  then_ uploaded (fun _ => invalidateCloudfront).

(** The callback that [apply] registers on [compiler.hooks.done].  The
    chain that handles the files is started and not awaited. *)
Definition done (isDirectoryUpload hasRequiredUploadOpts : bool)
    (compilation : Compilation) : M unit :=
  if negb hasRequiredUploadOpts
  then
    let error := "S3Plugin-RequiredS3UploadOpts: " +:+ Array_join ", " REQUIRED_S3_UP_OPTS in
    compileError error
  else
    listed <-
      (if isDirectoryUpload
       then p <- gets this ;;
            let dPath := addSeperatorToPath (default "" (directory (options p))) in
            ret (getAllFilesRecursive dPath)
       else ret (getAssetFiles compilation)) ;;
    handled <- then_ listed handleFiles ;;
    _ <- catch_ handled handleErrors ;;
    ret tt.

Definition optionConfig_truthy (o : option optionConfig) : bool :=
  match o with
  | None => false
  | Some (Func _) => true
  | Some (Const v) => truthy v
  end.

(** [apply(compiler)]: the result is the callback registered on the
    [done] hook. *)
Definition apply (compiler : Compiler) : M (Compilation -> M unit) :=
  connect ;;;
  p <- gets this ;;
  let isDirectoryUpload := str_truthy (directory (options p)) in
  let hasRequiredUploadOpts :=
    forallb (fun type => optionConfig_truthy (uploadOptions p !! type))
      REQUIRED_S3_UP_OPTS in
  let directory :=
    if str_truthy (directory (options p)) then directory (options p)
    else if str_truthy (output_path compiler) then output_path compiler
    else if str_truthy (output_context compiler) then output_context compiler
    else Some "." in
  modify (with_this (with_options (set_directory directory))) ;;;
  ret (done isDirectoryUpload hasRequiredUploadOpts).

(** A build pass: the plugin is applied to the compiler, and the
    compiler calls the [done] hook with its compilation. *)
Definition build (compiler : Compiler) (compilation : Compilation) : M unit :=
  hook <- apply compiler ;;
  hook compilation.

End Methods.

(** ** [getFileName] *)

(** [_.includes(s, value)] with a value of one character. *)
Fixpoint lodash_includes (s : string) (value : ascii) : bool :=
  match s with
  | EmptyString => false
  | String c s' => Ascii.eqb c value || lodash_includes s' value
  end.

(** [_.lastIndexOf(s, value)] with a value of one character: the index of
    its last occurrence, [-1] without one. *)
Fixpoint lodash_lastIndexOf (s : string) (value : ascii) : Z :=
  match s with
  | EmptyString => (-1)%Z
  | String c s' =>
      let index := lodash_lastIndexOf s' value in
      if (0 <=? index)%Z then (index + 1)%Z
      else if Ascii.eqb c value then 0%Z else (-1)%Z
  end.

(** [s.substring(start)] *)
Definition String_substring (start : Z) (s : string) : string :=
  let n := Z.to_nat (Z.max 0 start) in
  String.substring n (String.length s - n) s.

Section FileName.
Context `{Host}.

Definition getFileName (file : string) : string :=
  if lodash_includes file PATH_SEP
  then String_substring (lodash_lastIndexOf file PATH_SEP + 1) file
  else file.

End FileName.

(** ** A concrete host, for running the plugin *)

Module Fixture.

(** The regular expressions of the fragment above as the engine. *)
Definition engine : RegExpEngine :=
  {| RegExp := JsRegExp.regexp;
     RegExp_new := JsRegExp.compile;
     RegExp_test := JsRegExp.test |}.

Definition has_extension (ext fileName : string) : bool :=
  match JsRegExp.compile ("\." +:+ ext +:+ "$") with
  | Ok re => JsRegExp.test re fileName
  | Throw _ => false
  end.

(** A POSIX host with a three-line table for [mime]. *)
Definition host : Host :=
  {| PATH_SEP := "/"%char;
     path_resolve := fun a b => a +:+ "/" +:+ b;
     readDir := fun _ => Ok [];
     mime_getType := fun fileName =>
       if has_extension "js" fileName then Some "application/javascript"
       else if has_extension "css" fileName then Some "text/css"
       else if has_extension "html" fileName then Some "text/html"
       else None;
     cdnizer_new := fun _ text => text;
     Date_now := fun n => (1700000000000 + Z.of_nat n)%Z |}.

(** The same host on Windows, where [path.sep] is the backslash. *)
Definition windows : Host :=
  {| PATH_SEP := "\"%char;
     path_resolve := fun a b => a +:+ "\" +:+ b;
     readDir := readDir (Host := host);
     mime_getType := mime_getType (Host := host);
     cdnizer_new := cdnizer_new (Host := host);
     Date_now := Date_now (Host := host) |}.

(** A host whose directory listing fails. *)
Definition unreadable : Host :=
  {| PATH_SEP := "/"%char;
     path_resolve := path_resolve (Host := host);
     readDir := fun dir =>
       Throw (mkError "Error" ("ENOENT: no such file or directory, scandir '" +:+ dir +:+ "'"));
     mime_getType := mime_getType (Host := host);
     cdnizer_new := cdnizer_new (Host := host);
     Date_now := Date_now (Host := host) |}.

Definition failure : Error := mkError "Error" "AccessDenied".

(** No request has settled yet. *)
Definition all_pending : Remote :=
  {| upload_promise := fun _ => Pending;
     upload_totalBytes := fun _ => 10%Z;
     invalidation_promise := fun _ => Pending |}.

(** Every request has failed. *)
Definition all_rejected : Remote :=
  {| upload_promise := fun _ => Rejected failure;
     upload_totalBytes := fun _ => 10%Z;
     invalidation_promise := fun _ => Rejected failure |}.

(** Every request has succeeded. *)
Definition all_fulfilled : Remote :=
  {| upload_promise := fun _ => Fulfilled tt;
     upload_totalBytes := fun _ => 10%Z;
     invalidation_promise := fun n => Fulfilled ("I" +:+ Number_toString (Z.of_nat n)) |}.

Definition no_rule : @Rule engine := ROther NUndefined.

(** [new S3Plugin({s3UploadOptions: {Bucket: 'my-bucket'}})] *)
Definition bare : @ConstructorOptions engine :=
  {| c_include := no_rule;
     c_exclude := no_rule;
     c_progress := VUndefined;
     c_basePath := None;
     c_directory := None;
     c_htmlFiles := HNone;
     c_basePathTransform := None;
     c_s3Options := None;
     c_cdnizerOptions := None;
     c_s3UploadOptions := {[ "Bucket" := Const (VString "my-bucket") ]};
     c_cloudfrontInvalidateOptions := None;
     c_priority := None |}.

Definition with_basePath (basePath : string) (o : @ConstructorOptions engine)
    : @ConstructorOptions engine :=
  {| c_include := c_include o; c_exclude := c_exclude o; c_progress := c_progress o;
     c_basePath := Some basePath; c_directory := c_directory o;
     c_htmlFiles := c_htmlFiles o; c_basePathTransform := c_basePathTransform o;
     c_s3Options := c_s3Options o; c_cdnizerOptions := c_cdnizerOptions o;
     c_s3UploadOptions := c_s3UploadOptions o;
     c_cloudfrontInvalidateOptions := c_cloudfrontInvalidateOptions o;
     c_priority := c_priority o |}.

Definition with_rules (include exclude : @Rule engine) (o : @ConstructorOptions engine)
    : @ConstructorOptions engine :=
  {| c_include := include; c_exclude := exclude; c_progress := c_progress o;
     c_basePath := c_basePath o; c_directory := c_directory o;
     c_htmlFiles := c_htmlFiles o; c_basePathTransform := c_basePathTransform o;
     c_s3Options := c_s3Options o; c_cdnizerOptions := c_cdnizerOptions o;
     c_s3UploadOptions := c_s3UploadOptions o;
     c_cloudfrontInvalidateOptions := c_cloudfrontInvalidateOptions o;
     c_priority := c_priority o |}.

Definition with_priority (priority : list JsRegExp.regexp) (o : @ConstructorOptions engine)
    : @ConstructorOptions engine :=
  {| c_include := c_include o; c_exclude := c_exclude o; c_progress := c_progress o;
     c_basePath := c_basePath o; c_directory := c_directory o;
     c_htmlFiles := c_htmlFiles o; c_basePathTransform := c_basePathTransform o;
     c_s3Options := c_s3Options o; c_cdnizerOptions := c_cdnizerOptions o;
     c_s3UploadOptions := c_s3UploadOptions o;
     c_cloudfrontInvalidateOptions := c_cloudfrontInvalidateOptions o;
     c_priority := Some priority |}.

Definition with_s3UploadOptions (template : gmap string optionConfig)
    (o : @ConstructorOptions engine) : @ConstructorOptions engine :=
  {| c_include := c_include o; c_exclude := c_exclude o; c_progress := c_progress o;
     c_basePath := c_basePath o; c_directory := c_directory o;
     c_htmlFiles := c_htmlFiles o; c_basePathTransform := c_basePathTransform o;
     c_s3Options := c_s3Options o; c_cdnizerOptions := c_cdnizerOptions o;
     c_s3UploadOptions := template;
     c_cloudfrontInvalidateOptions := c_cloudfrontInvalidateOptions o;
     c_priority := c_priority o |}.

Definition with_cloudfront (cf : CloudfrontInvalidateOptions)
    (o : @ConstructorOptions engine) : @ConstructorOptions engine :=
  {| c_include := c_include o; c_exclude := c_exclude o; c_progress := c_progress o;
     c_basePath := c_basePath o; c_directory := c_directory o;
     c_htmlFiles := c_htmlFiles o; c_basePathTransform := c_basePathTransform o;
     c_s3Options := c_s3Options o; c_cdnizerOptions := c_cdnizerOptions o;
     c_s3UploadOptions := c_s3UploadOptions o;
     c_cloudfrontInvalidateOptions := Some cf;
     c_priority := c_priority o |}.

Definition with_basePathTransform (transform : string -> Promise string)
    (o : @ConstructorOptions engine) : @ConstructorOptions engine :=
  {| c_include := c_include o; c_exclude := c_exclude o; c_progress := c_progress o;
     c_basePath := c_basePath o; c_directory := c_directory o;
     c_htmlFiles := c_htmlFiles o; c_basePathTransform := Some transform;
     c_s3Options := c_s3Options o; c_cdnizerOptions := c_cdnizerOptions o;
     c_s3UploadOptions := c_s3UploadOptions o;
     c_cloudfrontInvalidateOptions := c_cloudfrontInvalidateOptions o;
     c_priority := c_priority o |}.

Definition with_directory (directory : string) (o : @ConstructorOptions engine)
    : @ConstructorOptions engine :=
  {| c_include := c_include o; c_exclude := c_exclude o; c_progress := c_progress o;
     c_basePath := c_basePath o; c_directory := Some directory;
     c_htmlFiles := c_htmlFiles o; c_basePathTransform := c_basePathTransform o;
     c_s3Options := c_s3Options o; c_cdnizerOptions := c_cdnizerOptions o;
     c_s3UploadOptions := c_s3UploadOptions o;
     c_cloudfrontInvalidateOptions := c_cloudfrontInvalidateOptions o;
     c_priority := c_priority o |}.


(** The world before the build pass: nothing recorded, nothing sent. *)
Definition fresh (opts : @ConstructorOptions engine) : @World engine :=
  {| this := new_S3Plugin opts; errors := []; disk := ∅; uploads := [];
     invalidations := []; progressBar := None; clock := 0 |}.

(** The same once [apply] has connected the client. *)
Definition connected (opts : @ConstructorOptions engine) : @World engine :=
  (@connect engine (fresh opts)).1.


Definition compiler : Compiler :=
  {| output_path := Some "/out"; output_context := None |}.

Definition compilation : Compilation :=
  {| assets := ["a.js"; "b.css"]; outputOptions_path := "/out" |}.

Definition a_js : File := {| path := "/out/a.js"; name := "a.js" |}.
Definition b_css : File := {| path := "/out/b.css"; name := "b.css" |}.
Definition ds_store : File := {| path := "/out/.DS_Store"; name := ".DS_Store" |}.

(** The literal [/\.css$/]. *)
Definition CSS_RE : JsRegExp.regexp :=
  JsRegExp.Seq (JsRegExp.Chr ".")
    (JsRegExp.Seq (JsRegExp.Chr "c")
       (JsRegExp.Seq (JsRegExp.Chr "s") (JsRegExp.Seq (JsRegExp.Chr "s") JsRegExp.Eos))).

(** The literal [/\.js$/]. *)
Definition JS_RE : JsRegExp.regexp :=
  JsRegExp.Seq (JsRegExp.Chr ".")
    (JsRegExp.Seq (JsRegExp.Chr "j") (JsRegExp.Seq (JsRegExp.Chr "s") JsRegExp.Eos)).

End Fixture.

(** * Properties *)

(** ** [addTrailingS3Sep] *)

Section TrailingSeparator.
Import JsRegExp.
Local Arguments consumed : simpl never.
Local Arguments Ascii.eqb : simpl never.

Ltac step_eqb :=
  repeat match goal with
    | |- context [Ascii.eqb ?a ?b] =>
        destruct (Ascii.eqb_spec a b); try congruence; subst
    end.

Lemma consumed_one c s : consumed (String c s) s = String c "".
Proof.
  unfold consumed. cbn [String.length].
  replace (S (String.length s) - String.length s) with 1 by lia.
  cbn. by destruct s.
Qed.

Lemma consumed_none s : consumed s s = "".
Proof.
  unfold consumed. rewrite Nat.sub_diag. by destruct s.
Qed.

Lemma match_here_special c s :
  c = "?"%char \/ c = "#"%char ->
  match_here TRAILING_SEP_RE (String c s) = Some (s, [(1, String c "")]).
Proof.
  intros [-> | ->]; unfold match_here; cbn; step_eqb; by rewrite consumed_one.
Qed.

Lemma match_here_slash_special c s :
  c = "?"%char \/ c = "#"%char ->
  match_here TRAILING_SEP_RE (String "/" (String c s)) = Some (s, [(1, String c "")]).
Proof.
  intros [-> | ->]; unfold match_here; cbn; step_eqb; by rewrite consumed_one.
Qed.

Lemma match_here_slash_other c s :
  c <> "?"%char -> c <> "#"%char ->
  match_here TRAILING_SEP_RE (String "/" (String c s)) = None.
Proof.
  intros H1 H2. unfold match_here. cbn. by step_eqb.
Qed.

Lemma match_here_other c s :
  c <> "/"%char -> c <> "?"%char -> c <> "#"%char ->
  match_here TRAILING_SEP_RE (String c s) = None.
Proof.
  intros H0 H1 H2. unfold match_here. cbn. by step_eqb.
Qed.

Lemma replace_first_eq r tmpl s :
  replace_first r tmpl s =
    match match_here r s with
    | Some (rest, caps) => Some (expand tmpl caps +:+ rest)
    | None =>
        match s with
        | EmptyString => None
        | String c s' => String c <$> replace_first r tmpl s'
        end
    end.
Proof. by destruct s. Qed.

(** A first character that is neither [?] nor [#] stays first. *)
Lemma replace_first_head c s r :
  c <> "?"%char -> c <> "#"%char ->
  replace_first TRAILING_SEP_RE [Lit "/"; Ref 1] (String c s) = Some r ->
  exists r', r = String c r'.
Proof.
  intros H1 H2. rewrite replace_first_eq.
  destruct (decide (c = "/"%char)) as [->|H0].
  - destruct s as [|d s].
    + cbn; cbv [String.append]. intros [= <-]. eauto.
    + destruct (decide (d = "?"%char \/ d = "#"%char)) as [Hd|Hd].
      * rewrite (match_here_slash_special _ _ Hd).
        cbn; cbv [String.append]. intros [= <-]. eauto.
      * rewrite match_here_slash_other by tauto.
        destruct (replace_first _ _ (String d s)); cbn; cbv [String.append]; intros [= <-]; eauto.
  - rewrite match_here_other by done.
    destruct (replace_first _ _ s); cbn; cbv [String.append]; intros [= <-]; eauto.
Qed.

(** What the replacement returns is left as it is by a second one. *)
Lemma replace_first_fixed s : forall r,
  replace_first TRAILING_SEP_RE [Lit "/"; Ref 1] s = Some r ->
  replace_first TRAILING_SEP_RE [Lit "/"; Ref 1] r = Some r.
Proof.
  induction s as [|c s IH]; intros r.
  - cbn; cbv [String.append]. intros [= <-]. reflexivity.
  - rewrite replace_first_eq.
    destruct (decide (c = "?"%char \/ c = "#"%char)) as [Hc|Hc].
    { rewrite (match_here_special _ _ Hc). cbn; cbv [String.append].
      intros [= <-]. rewrite replace_first_eq.
      rewrite (match_here_slash_special _ _ Hc). reflexivity. }
    destruct (decide (c = "/"%char)) as [->|H0].
    + destruct s as [|d s].
      { cbn; cbv [String.append]. intros [= <-]. reflexivity. }
      destruct (decide (d = "?"%char \/ d = "#"%char)) as [Hd|Hd].
      { rewrite (match_here_slash_special _ _ Hd). cbn; cbv [String.append].
        intros [= <-]. rewrite replace_first_eq.
        rewrite (match_here_slash_special _ _ Hd). reflexivity. }
      rewrite match_here_slash_other by tauto.
      destruct (replace_first _ _ (String d s)) as [r'|] eqn:Hr'; [|done].
      cbn; cbv [String.append]. intros [= <-].
      destruct (replace_first_head d s r') as [r'' ->]; [tauto|tauto|done|].
      rewrite replace_first_eq, match_here_slash_other by tauto.
      by rewrite (IH _ eq_refl).
    + rewrite match_here_other by tauto.
      destruct (replace_first _ _ s) as [r'|] eqn:Hr'; [|done].
      cbn; cbv [String.append]. intros [= <-]. rewrite replace_first_eq.
      rewrite match_here_other by tauto. by rewrite (IH _ eq_refl).
Qed.

End TrailingSeparator.

Lemma addTrailingS3Sep_cases s :
  addTrailingS3Sep s = s \/
  JsRegExp.replace_first TRAILING_SEP_RE [JsRegExp.Lit "/"; JsRegExp.Ref 1] s
    = Some (addTrailingS3Sep s).
Proof.
  unfold addTrailingS3Sep, JsRegExp.replace.
  destruct (negb (s =? "")%string); [|by left].
  destruct (JsRegExp.replace_first _ _ s); [by right|by left].
Qed.

(** C9: [addTrailingS3Sep "test"] is ["test/"]; applying
    [addTrailingS3Sep] twice gives what applying it once gives, for every
    string; and the empty string is returned as it is. *)
Theorem addTrailingS3Sep_idempotent :
  addTrailingS3Sep "test" = "test/" /\
  (forall s : string, addTrailingS3Sep (addTrailingS3Sep s) = addTrailingS3Sep s) /\
  addTrailingS3Sep "" = "".
Proof.
  split; [by vm_compute|]. split; [|reflexivity].
  intros s. destruct (addTrailingS3Sep_cases s) as [E|E]; [congruence|].
  revert E. generalize (addTrailingS3Sep s) as r. intros r Hr.
  unfold addTrailingS3Sep. destruct (negb (r =? "")%string); [|done].
  unfold JsRegExp.replace. by rewrite (replace_first_fixed _ _ Hr).
Qed.

(** ** [testRule] *)

Section RuleProperties.
Context `{RegExpEngine}.

Lemma every_Forall2 {A} (f : A -> result bool) (l : list A) (bs : list bool) :
  Forall2 (fun x b => f x = Ok b) l bs ->
  every f l = Ok (forallb id bs).
Proof.
  induction 1 as [|x b l bs Hx _ IH]; [done|].
  cbn. rewrite Hx. cbn. destruct b; [exact IH|done].
Qed.

(** C6: [testRule] on a [RegExp] is the pattern's test of the subject; on
    a string it is the test of the pattern compiled from the string; on a
    function it is the function's result coerced to a boolean; on an array
    it is [every] over the members, hence the conjunction of their results
    when all of them return; on any other value it throws the invalid-rule
    error. *)
Theorem testRule_by_shape (subject : string) :
  (forall re, testRule (RRegExp re) subject = Ok (RegExp_test re subject)) /\
  (forall s, testRule (RString s) subject
             = (re <-? RegExp_new s ;; Ok (RegExp_test re subject))) /\
  (forall f, testRule (RFunction f) subject = (v <-? f subject ;; Ok (truthy v))) /\
  (forall rules,
     testRule (RArray rules) subject = every (fun rule => testRule rule subject) rules) /\
  (forall rules bs,
     Forall2 (fun rule b => testRule rule subject = Ok b) rules bs ->
     testRule (RArray rules) subject = Ok (forallb id bs)) /\
  (forall v, testRule (ROther v) subject
             = Throw (mkError "Error" "Invalid include / exclude rule")).
Proof.
  repeat split; try reflexivity.
  - intros f. cbn. destruct (f subject); cbn; [|done]. by rewrite negb_involutive.
  - intros rules bs Hall. cbn. by apply every_Forall2.
Qed.

End RuleProperties.

Section RuleWitness.
#[local] Existing Instance Fixture.engine.

Lemma testRule_by_shape_witness :
  Forall2 (fun rule b => testRule rule "a.js" = Ok b)
    [RRegExp Fixture.JS_RE; RString "b"; RFunction (fun s => Ok (VString s))]
    [true; false; true] /\
  testRule
    (RArray [RRegExp Fixture.JS_RE; RString "b"; RFunction (fun s => Ok (VString s))])
    "a.js" = Ok false.
Proof.
  assert (Hall : Forall2 (fun rule b => testRule rule "a.js" = Ok b)
    [RRegExp Fixture.JS_RE; RString "b"; RFunction (fun s => Ok (VString s))]
    [true; false; true]).
  { repeat constructor. }
  split; [exact Hall|].
  exact (proj1 (proj2 (proj2 (proj2 (proj2 (testRule_by_shape "a.js"))))) _ _ Hall).
Defined.

End RuleWitness.

(** ** [filterAllowedFiles] *)

Section FilterProperties.
Context `{RegExpEngine}.

Lemma compile_DS_Store : exists re, JsRegExp.compile ".DS_Store" = Ok re.
Proof. vm_compute. eauto. Qed.

(** [isIgnoredFile] never throws: the one ignore compiles. *)
Lemma isIgnoredFile_total (file : string) :
  exists b, isIgnoredFile file = Ok b.
Proof.
  unfold isIgnoredFile, UPLOAD_IGNORES. cbn [some].
  destruct compile_DS_Store as [re ->].
  cbn [bind]. destruct (JsRegExp.test re file); eauto.
Qed.

(** The file passes [include]: no include rule is configured, or the rule
    matches. *)
Local Abbreviation include_passes this file :=
  (Rule_truthy (include (options this)) = false \/
   testRule (include (options this)) (name file) = Ok true).

(** The file matches the configured [exclude] rule. *)
Local Abbreviation exclude_matches this file :=
  (Rule_truthy (exclude (options this)) = true /\
   testRule (exclude (options this)) (name file) = Ok true).

(** The file's name matches an ignore pattern. *)
Local Abbreviation ignored file := (isIgnoredFile (name file) = Ok true).

Local Abbreviation kept this file :=
  (include_passes this file /\ ~ exclude_matches this file /\ ~ ignored file).

Lemma isIncludeAndNotExclude_true this file b :
  isIncludeAndNotExclude this (name file) = Ok b ->
  b = true <-> include_passes this file /\ ~ exclude_matches this file.
Proof.
  unfold isIncludeAndNotExclude.
  destruct (Rule_truthy (include (options this)));
    destruct (Rule_truthy (exclude (options this)));
    repeat match goal with
      | |- context [testRule ?r ?s] => destruct (testRule r s) as [[]|]
      end; cbn; intros [= <-]; intuition congruence.
Qed.

Lemma filterAllowedFiles_from_spec this files : forall res,
  (forall file, file ∈ files ->
     exists b, isIncludeAndNotExclude this (name file) = Ok b) ->
  filterAllowedFiles_from this res files
  = Ok (res ++ filter (fun file => kept this file) files).
Proof.
  induction files as [|file files IH]; intros res Hok.
  - cbn. by rewrite app_nil_r.
  - destruct (Hok file) as [b Hb]; [by left|].
    destruct (isIgnoredFile_total (name file)) as [i Hi].
    cbn [filterAllowedFiles_from]. rewrite Hb. cbn [bind].
    pose proof (isIncludeAndNotExclude_true _ _ _ Hb) as Hiff.
    rewrite filter_cons.
    destruct b.
    + rewrite Hi. cbn [bind]. destruct i; cbn [negb].
      * rewrite decide_False by tauto.
        rewrite IH; [done|]. intros f Hf. apply Hok. by right.
      * rewrite decide_True.
        2:{ split_and!; [tauto|tauto|congruence]. }
        rewrite IH; [|intros f Hf; apply Hok; by right].
        by rewrite <- app_assoc.
    + cbn [bind]. rewrite decide_False.
      2:{ intros (? & ? & _). 
          assert (false = true) by (apply Hiff; tauto). done. }
      rewrite IH; [done|]. intros f Hf. apply Hok. by right.
Qed.

Lemma filterAllowedFiles_from_Ok this files : forall res out,
  filterAllowedFiles_from this res files = Ok out ->
  forall file, file ∈ files ->
    exists b, isIncludeAndNotExclude this (name file) = Ok b.
Proof.
  induction files as [|file files IH]; intros res out Hout f Hf.
  - by apply elem_of_nil in Hf.
  - cbn [filterAllowedFiles_from] in Hout.
    destruct (isIncludeAndNotExclude this (name file)) as [b|e] eqn:Hb; [|done].
    cbn [bind] in Hout.
    apply elem_of_cons in Hf as [->|Hf]; [eauto|].
    destruct (if b then _ else _) as [keep|]; [|done].
    cbn [bind] in Hout. eauto.
Qed.


End FilterProperties.

Section FilterWitness.
#[local] Existing Instance Fixture.engine.
Import Fixture.

(** [include: '.'] lets every name pass, [exclude: /\.css$/] removes
    [b.css], and [.DS_Store] is ignored. *)
Example filterAllowedFiles_example :
  filterAllowedFiles (new_S3Plugin (with_rules (RString ".") (RRegExp CSS_RE) bare))
    [a_js; b_css; ds_store] = Ok [a_js].
Proof. vm_compute. reflexivity. Qed.


End FilterWitness.

(** ** [prioritizeFiles] *)

Section PrioritizeProperties.
Context `{RegExpEngine}.



(** No pattern of [patterns] matches the file's name. *)
Local Abbreviation unmatched patterns file :=
  (forallb (fun reg => negb (RegExp_test reg (name file))) patterns).



End PrioritizeProperties.



(** ** [uploadFile] *)

(** The [Key] of [uploadFile]: the base path and the file name, without
    one leading separator. *)
Local Abbreviation Key_of p fileName :=
  (match basePath (options p) +:+ fileName with
   | String "/" rest => rest
   | _ => basePath (options p) +:+ fileName
   end).

(** The upload options of the instance, resolved for one file. *)
Local Abbreviation template_of p fileName file :=
  (resolveOption fileName file <$> uploadOptions p).

(** [s3Params] once the content type is inferred. *)
Local Abbreviation s3Params_of p fileName file :=
  (if bool_decide (default VUndefined (template_of p fileName file !! "ContentType")
                   = VUndefined)
   then match mime_getType fileName with
        | Some contentType =>
            if truthy (VString contentType)
            then <["ContentType" := VString contentType]> (template_of p fileName file)
            else template_of p fileName file
        | None => template_of p fileName file
        end
   else template_of p fileName file).

Local Abbreviation request_of p fileName file :=
  (lodash_merge
     (lodash_merge {[ "Key" := VString (Key_of p fileName); "Body" := VStream file ]}
        DEFAULT_UPLOAD_OPTIONS)
     (s3Params_of p fileName file)).

Section UploadFileProperties.
Context `{RegExpEngine} `{Host}.
Variable remote : Remote.

(** With a connected client [uploadFile] returns, having sent one request
    and touched nothing but the rewrite patterns. *)
Lemma uploadFile_connected (fileName file : string) (w : World) :
  client (this w) <> None ->
  exists w',
    uploadFile remote fileName file w
    = (w', Ok {| upload := length (uploads w);
                 promise := upload_promise remote (length (uploads w)) |}) /\
    uploads w' = uploads w ++ [request_of (this w) fileName file] /\
    errors w' = errors w /\
    invalidations w' = invalidations w /\
    progressBar w' = progressBar w /\
    client (this w') = client (this w) /\
    options (this w') = options (this w) /\
    uploadOptions (this w') = uploadOptions (this w) /\
    noCdnizer (this w') = noCdnizer (this w) /\
    basePathTransform (this w') = basePathTransform (this w) /\
    cloudfrontInvalidateOptions (this w') = cloudfrontInvalidateOptions (this w).
Proof.
  destruct w as [p errs dsk ups invs bar clk].
  destruct p as [conn tmpl cf bpt opts s3o nocdn cdno cdn [c|]]; [intros _|done].
  destruct nocdn;
    cbv beta iota zeta delta
      [uploadFile client_upload bindM gets modify ret throw negb with_this set_cdnizer
       this uploads errors invalidations progressBar client options uploadOptions
       noCdnizer basePathTransform cloudfrontInvalidateOptions];
    eexists; split_and!; reflexivity.
Qed.

Lemma assignMergeValue_diag (f := assignMergeValue) x y :
  diag_None f x y = f x y.
Proof. by destruct x, y. Qed.

Lemma request_lookup p (fileName file k : string) :
  request_of p fileName file !! k
  = assignMergeValue
      (assignMergeValue
         (({[ "Key" := VString (Key_of p fileName); "Body" := VStream file ]}
             : gmap string val) !! k)
         (DEFAULT_UPLOAD_OPTIONS !! k))
      (s3Params_of p fileName file !! k).
Proof.
  unfold lodash_merge. by rewrite !lookup_merge, !assignMergeValue_diag.
Qed.

(** Inferring the content type touches no other parameter. *)
Lemma s3Params_lookup_ne p (fileName file k : string) :
  k <> "ContentType" ->
  s3Params_of p fileName file !! k = template_of p fileName file !! k.
Proof.
  intros Hk. case_bool_decide; [|done].
  destruct (mime_getType fileName) as [contentType|]; [|done].
  destruct (truthy (VString contentType)); [|done].
  by rewrite lookup_insert_ne.
Qed.

(** A parameter that the template defines is not touched either. *)
Lemma s3Params_lookup_defined p (fileName file k : string) (v : val) :
  template_of p fileName file !! k = Some v ->
  v <> VUndefined ->
  s3Params_of p fileName file !! k = Some v.
Proof.
  intros Hv Hdef. destruct (decide (k = "ContentType")) as [->|Hk].
  - rewrite bool_decide_eq_false_2; [done|]. by rewrite Hv.
  - by rewrite s3Params_lookup_ne.
Qed.

Lemma request_lookup_defined p (fileName file k : string) (v : val) :
  template_of p fileName file !! k = Some v ->
  v <> VUndefined ->
  request_of p fileName file !! k = Some v.
Proof.
  intros Hv Hdef. rewrite request_lookup, (s3Params_lookup_defined _ _ _ _ _ Hv Hdef).
  by destruct v.
Qed.

Lemma request_lookup_Key p (fileName file : string) :
  default VUndefined (template_of p fileName file !! "Key") = VUndefined ->
  request_of p fileName file !! "Key" = Some (VString (Key_of p fileName)).
Proof.
  intros Hundef. rewrite request_lookup, s3Params_lookup_ne by done.
  rewrite lookup_insert_eq.
  replace (DEFAULT_UPLOAD_OPTIONS !! "Key") with (@None val) by done.
  destruct (template_of p fileName file !! "Key") as [v|]; [|done].
  cbn in Hundef. by subst v.
Qed.

(** C10: the request that [uploadFile] sends is the merge of the computed
    [Key] and [Body], the default [ACL] and the resolved template, in this
    order, a later defined value replacing an earlier one: whatever the
    template defines is what the request holds, be it the [ACL], the [Key]
    or the [Body], and what it leaves out keeps the computed key, the
    content stream and ['public-read']. *)
Theorem uploadFile_request_merge (fileName file : string) (w : World) :
  client (this w) <> None ->
  exists request,
    uploads (uploadFile remote fileName file w).1 = uploads w ++ [request] /\
    (forall k, k <> "ContentType" ->
       request !! k
       = assignMergeValue
           (assignMergeValue
              (({[ "Key" := VString (Key_of (this w) fileName);
                   "Body" := VStream file ]} : gmap string val) !! k)
              (DEFAULT_UPLOAD_OPTIONS !! k))
           (template_of (this w) fileName file !! k)) /\
    (forall k v, template_of (this w) fileName file !! k = Some v ->
                 v <> VUndefined -> request !! k = Some v) /\
    (template_of (this w) fileName file !! "ACL" = None ->
     request !! "ACL" = Some (VString "public-read")) /\
    (template_of (this w) fileName file !! "Key" = None ->
     request !! "Key" = Some (VString (Key_of (this w) fileName))) /\
    (template_of (this w) fileName file !! "Body" = None ->
     request !! "Body" = Some (VStream file)).
Proof.
  intros Hclient.
  destruct (uploadFile_connected fileName file w Hclient) as (w' & -> & Hup & _).
  exists (request_of (this w) fileName file). split; [exact Hup|].
  split_and!.
  - intros k Hk. by rewrite request_lookup, s3Params_lookup_ne.
  - intros k v. apply request_lookup_defined.
  - intros Hnone. rewrite request_lookup, s3Params_lookup_ne, Hnone by done. done.
  - intros Hnone. apply request_lookup_Key. by rewrite Hnone.
  - intros Hnone. rewrite request_lookup, s3Params_lookup_ne, Hnone by done.
    rewrite lookup_insert_ne, lookup_singleton_eq by done. done.
Qed.

Lemma uploadFile_Key_spec (fileName file : string) (w : World) :
  client (this w) <> None ->
  default VUndefined (template_of (this w) fileName file !! "Key") = VUndefined ->
  exists request,
    uploads (uploadFile remote fileName file w).1 = uploads w ++ [request] /\
    request !! "Key" = Some (VString (Key_of (this w) fileName)) /\
    (basePath (options (this w)) = "" ->
     request !! "Key"
     = Some (VString match fileName with String "/" rest => rest | _ => fileName end) /\
     (String.prefix "/" fileName = false -> request !! "Key" = Some (VString fileName))).
Proof.
  intros Hclient Hundef.
  destruct (uploadFile_connected fileName file w Hclient) as (w' & -> & Hup & _).
  exists (request_of (this w) fileName file). split; [exact Hup|].
  rewrite (request_lookup_Key _ _ _ Hundef). split; [done|].
  intros ->. cbn [String.append]. split; [done|].
  intros Hprefix. do 2 f_equal.
  destruct fileName as [|c rest]; [done|].
  cbn in Hprefix. destruct (ascii_dec "/" c) as [<-|Hc].
  - by destruct rest.
  - clear Hprefix. destruct c as [[] [] [] [] [] [] [] []]; done.
Qed.


End UploadFileProperties.

(** C3 (amended): the key that [uploadFile] computes, and sends when the
    template defines no [Key], is the base path followed by the file name,
    without one leading separator; with an empty base path it is the file
    name without one leading separator, which is the file name itself when
    that does not begin with the separator.  With [basePath: 'test'] the
    file [a.js] is sent under the key [test/a.js]. *)
Theorem uploadFile_Key :
  (forall (E : RegExpEngine) (H : Host) (remote : Remote)
          (fileName file : string) (w : World),
     client (this w) <> None ->
     default VUndefined (template_of (this w) fileName file !! "Key") = VUndefined ->
     exists request,
       uploads (uploadFile remote fileName file w).1 = uploads w ++ [request] /\
       request !! "Key" = Some (VString (Key_of (this w) fileName)) /\
       (basePath (options (this w)) = "" ->
        request !! "Key"
        = Some (VString match fileName with String "/" rest => rest | _ => fileName end) /\
        (String.prefix "/" fileName = false ->
         request !! "Key" = Some (VString fileName)))) /\
  (fun request : gmap string val => request !! "Key") <$>
    uploads (@uploadFiles Fixture.engine Fixture.host Fixture.all_pending [Fixture.a_js]
               (Fixture.connected (Fixture.with_basePath "test" Fixture.bare))).1
  = [Some (VString "test/a.js")].
Proof.
  split; [|vm_compute; reflexivity].
  intros E H remote fileName file w. apply uploadFile_Key_spec.
Qed.

Section UploadFileWitness.
#[local] Existing Instance Fixture.engine.
#[local] Existing Instance Fixture.host.
Import Fixture.

Lemma uploadFile_Key_witness :
  client (this (connected bare)) <> None /\
  default VUndefined (template_of (this (connected bare)) "a.js" "/out/a.js" !! "Key")
  = VUndefined /\
  basePath (options (this (connected bare))) = "" /\
  String.prefix "/" "a.js" = false /\
  exists request,
    uploads (uploadFile all_pending "a.js" "/out/a.js" (connected bare)).1 = [request] /\
    request !! "Key" = Some (VString "a.js").
Proof.
  assert (Hclient : client (this (connected bare)) <> None) by (vm_compute; discriminate).
  assert (Hundef : default VUndefined
            (template_of (this (connected bare)) "a.js" "/out/a.js" !! "Key")
          = VUndefined) by (vm_compute; reflexivity).
  split; [exact Hclient|]. split; [exact Hundef|].
  split; [reflexivity|]. split; [reflexivity|].
  destruct (proj1 uploadFile_Key engine host all_pending "a.js" "/out/a.js"
              (connected bare) Hclient Hundef) as (request & Hup & _ & Hempty).
  exists request. split; [exact Hup|].
  exact (proj2 (Hempty eq_refl) eq_refl).
Defined.

(** With an empty base path the file name [/x.js] is sent under the key
    [x.js], not under [/x.js]. *)
Lemma uploadFile_Key_unchanged_counterexample :
  basePath (options (this (connected bare))) = "" /\
  (fun request : gmap string val => request !! "Key") <$>
    uploads (uploadFile all_pending "/x.js" "/out/x.js" (connected bare)).1
  = [Some (VString "x.js")] /\
  (fun request : gmap string val => request !! "Key") <$>
    uploads (uploadFile all_pending "/x.js" "/out/x.js" (connected bare)).1
  <> [Some (VString "/x.js")].
Proof.
  split; [reflexivity|]. split; [vm_compute; reflexivity|].
  vm_compute. discriminate.
Qed.



Lemma uploadFile_request_merge_witness :
  client (this (connected (with_s3UploadOptions
    {[ "Bucket" := Const (VString "my-bucket");
       "ACL" := Const (VString "private");
       "Key" := Func (fun fileName _ => VString ("fixed/" +:+ fileName)) ]} bare))) <> None /\
  exists request,
    uploads (uploadFile all_pending "a.js" "/out/a.js"
      (connected (with_s3UploadOptions
        {[ "Bucket" := Const (VString "my-bucket");
           "ACL" := Const (VString "private");
           "Key" := Func (fun fileName _ => VString ("fixed/" +:+ fileName)) ]} bare))).1
    = [request] /\
    request !! "ACL" = Some (VString "private") /\
    request !! "Key" = Some (VString "fixed/a.js") /\
    request !! "Body" = Some (VStream "/out/a.js").
Proof.
  assert (Hclient : client (this (connected (with_s3UploadOptions
    {[ "Bucket" := Const (VString "my-bucket");
       "ACL" := Const (VString "private");
       "Key" := Func (fun fileName _ => VString ("fixed/" +:+ fileName)) ]} bare))) <> None)
    by (vm_compute; discriminate).
  split; [exact Hclient|].
  destruct (uploadFile_request_merge all_pending "a.js" "/out/a.js" _ Hclient)
    as (request & Hup & _ & Hdefined & _ & _ & Hbody).
  exists request. split; [exact Hup|]. split_and!.
  - apply Hdefined; [vm_compute; reflexivity|discriminate].
  - apply Hdefined; [vm_compute; reflexivity|discriminate].
  - apply Hbody. vm_compute. reflexivity.
Defined.

End UploadFileWitness.

(** ** [Promise.all] *)

Lemma Promise_all_Fulfilled {A} (ps : list (Promise A)) :
  (exists l, Promise_all ps = Fulfilled l) <->
  Forall (fun p => exists a, p = Fulfilled a) ps.
Proof.
  induction ps as [|p ps IH]; cbn.
  - split; [constructor|eauto].
  - split.
    + intros [l Hl]. destruct p as [|a|e]; [..|done].
      * by destruct (Promise_all ps).
      * constructor; [eauto|]. apply IH. destruct (Promise_all ps); [done|eauto|done].
    + intros [[a ->] [l Hl]%IH]%Forall_cons. rewrite Hl. eauto.
Qed.

Lemma Promise_all_Rejected {A} (ps : list (Promise A)) :
  (exists e, Promise_all ps = Rejected e) <->
  Exists (fun p => exists e, p = Rejected e) ps.
Proof.
  induction ps as [|p ps IH]; cbn.
  - split; [by intros [? ?]|by intros ?%Exists_nil].
  - rewrite Exists_cons, <- IH. destruct p as [|a|e].
    + destruct (Promise_all ps) as [|l|e']; split; try (intros [? ?]; done).
      * intros [[? ?]|[? ?]]; done.
      * intros [[? ?]|[? ?]]; done.
      * eauto.
      * eauto.
    + destruct (Promise_all ps) as [|l|e']; split; try (intros [? ?]; done).
      * intros [[? ?]|[? ?]]; done.
      * intros [[? ?]|[? ?]]; done.
      * eauto.
      * eauto.
    + split; eauto.
Qed.

Lemma Promise_all_settled {A} (ps : list (Promise A)) :
  Forall (fun p => settled p = true) ps -> settled (Promise_all ps) = true.
Proof.
  induction 1 as [|p ps Hp _ IH]; [done|]. cbn.
  destruct p; [done|..]; by destruct (Promise_all ps).
Qed.

(** ** [invalidateCloudfront] *)

Section InvalidateProperties.
Context `{RegExpEngine} `{Host}.
Variable remote : Remote.

(** The request that the k-th [createInvalidation] of a pass sends. *)
Local Abbreviation request_for w Items k DistributionId :=
  {| inv_DistributionId := DistributionId;
     CallerReference := Number_toString (Date_now (clock w + k));
     Quantity := length Items;
     inv_Items := Items |}.

Lemma mapM_createInvalidation (Items : list string) (ids : list string) : forall w,
  exists w',
    mapM (fun DistributionId => createInvalidation remote DistributionId Items) ids w
    = (w', Ok (imap (fun k _ => invalidation_promise remote (length (invalidations w) + k))
                 ids)) /\
    invalidations w'
    = invalidations w ++ imap (fun k id => request_for w Items k id) ids /\
    clock w' = clock w + length ids /\
    this w' = this w /\
    uploads w' = uploads w /\
    errors w' = errors w.
Proof.
  induction ids as [|id ids IH]; intros w.
  - exists w. cbn. rewrite app_nil_r, Nat.add_0_r. done.
  - cbn [mapM]. unfold bindM at 1. unfold createInvalidation at 1.
    cbv beta iota delta [bindM gets modify ret].
    match goal with
    | |- context [mapM _ ids ?w1] => destruct (IH w1) as (w' & -> & Hinv & Hclock & Hthis & Hup & Herr)
    end.
    exists w'. cbn [invalidations clock this uploads errors] in *.
    split_and!.
    + cbn [imap]. rewrite Nat.add_0_r. do 3 f_equal.
      apply imap_ext. intros k ? _. cbn. rewrite length_app. cbn. f_equal. lia.
    + rewrite Hinv. cbn [imap]. rewrite <- app_assoc. cbn [app].
      rewrite Nat.add_0_r. do 2 f_equal.
      apply imap_ext. intros k ? _. cbn. do 3 f_equal. lia.
    + rewrite Hclock. cbn. lia.
    + done.
    + done.
    + done.
Qed.

Lemma Forall_imap_const {A B} (P : B -> Prop) (f : nat -> B) (l : list A) :
  Forall P (imap (fun k _ => f k) l) <-> forall k, k < length l -> P (f k).
Proof.
  rewrite Forall_lookup. split.
  - intros Hall k Hk. destruct (lookup_lt_is_Some_2 l k Hk) as [x Hx].
    apply (Hall k). by rewrite list_lookup_imap, Hx.
  - intros Hall k y. rewrite list_lookup_imap.
    destruct (l !! k) eqn:Hl; [|done]. intros [= <-].
    apply Hall. by eapply lookup_lt_Some.
Qed.

Lemma Exists_imap_const {A B} (P : B -> Prop) (f : nat -> B) (l : list A) :
  Exists P (imap (fun k _ => f k) l) <-> exists k, k < length l /\ P (f k).
Proof.
  rewrite Exists_exists. split.
  - intros (y & Hy & HP). apply list_elem_of_lookup in Hy as [k Hk].
    rewrite list_lookup_imap in Hk. destruct (l !! k) eqn:Hl; [|done].
    injection Hk as <-. exists k. split; [by eapply lookup_lt_Some|done].
  - intros (k & Hk & HP). exists (f k). split; [|done].
    destruct (lookup_lt_is_Some_2 l k Hk) as [x Hx].
    apply list_elem_of_lookup. exists k. by rewrite list_lookup_imap, Hx.
Qed.

(** C8: without a distribution identifier [invalidateCloudfront] changes
    nothing, sends nothing and returns a promise fulfilled with [null].
    With one, the identifier is stored as a list (a string as the list of
    that string), one request is sent for each identifier of the list, in
    their order and with the configured paths, and the promise returned is
    fulfilled exactly when every request succeeded and rejected exactly
    when one of them failed. *)
Theorem invalidateCloudfront_requests (w : World) :
  ((forall opts, cloudfrontInvalidateOptions (this w) = Some opts ->
                 DistributionIds_truthy (DistributionId opts) = false) ->
   invalidateCloudfront remote w = (w, Ok (Fulfilled None))) /\
  (forall opts,
     cloudfrontInvalidateOptions (this w) = Some opts ->
     DistributionIds_truthy (DistributionId opts) = true ->
     exists ids w' p,
       ids = match DistributionId opts with
             | DArray l => l
             | DString s => [s]
             | DNone => []
             end /\
       invalidateCloudfront remote w = (w', Ok p) /\
       cloudfrontInvalidateOptions (this w')
       = Some {| DistributionId := DArray ids; Items := Items opts |} /\
       invalidations w'
       = invalidations w ++ imap (fun k id => request_for w (Items opts) k id) ids /\
       length (invalidations w') = length (invalidations w) + length ids /\
       uploads w' = uploads w /\
       ((exists l, p = Fulfilled (Some l)) <->
        forall k, k < length ids ->
          exists Id, invalidation_promise remote (length (invalidations w) + k)
                     = Fulfilled Id) /\
       ((exists e, p = Rejected e) <->
        exists k, k < length ids /\
          exists e, invalidation_promise remote (length (invalidations w) + k)
                    = Rejected e)).
Proof.
  split.
  - intros Hnone. unfold invalidateCloudfront.
    cbv beta iota delta [bindM gets ret].
    destruct (cloudfrontInvalidateOptions (this w)) as [opts|] eqn:Hopts; [|done].
    by rewrite (Hnone opts eq_refl).
  - intros opts Hopts Htruthy. eexists. unfold invalidateCloudfront.
    cbv beta iota delta [bindM gets ret modify]. rewrite Hopts, Htruthy.
    match goal with
    | |- context [mapM _ ?ids ?w1] =>
        destruct (mapM_createInvalidation (Items opts) ids w1)
          as (w' & -> & Hinv & _ & Hthis & Hup & _)
    end.
    do 2 eexists. split; [reflexivity|]. split; [reflexivity|].
    split_and!.
    + rewrite Hthis. destruct w as [[] ? ? ? ? ? ?]. cbn in *. by rewrite Hopts.
    + rewrite Hinv. by destruct w.
    + rewrite Hinv, length_app, length_imap. by destruct w.
    + rewrite Hup. by destruct w.
    + destruct w as [p0 errs dsk ups invs bar clk]. cbn [invalidations with_this].
      rewrite <- (Forall_imap_const (fun p => exists a, p = Fulfilled a)
                    (fun k => invalidation_promise remote (length invs + k))).
      rewrite <- Promise_all_Fulfilled.
      destruct (Promise_all _) as [|l|e]; split; intros [? ?]; try done; eauto.
    + destruct w as [p0 errs dsk ups invs bar clk]. cbn [invalidations with_this].
      rewrite <- (Exists_imap_const (fun p => exists e, p = Rejected e)
                    (fun k => invalidation_promise remote (length invs + k))).
      rewrite <- Promise_all_Rejected.
      destruct (Promise_all _) as [|l|e]; split; intros [? ?]; try done; eauto.
Qed.

End InvalidateProperties.

Section InvalidateWitness.
#[local] Existing Instance Fixture.engine.
#[local] Existing Instance Fixture.host.
Import Fixture.

(** [DistributionId: 'E123'] is stored as [['E123']] and gives one
    request; with no invalidation options nothing is sent. *)
Lemma invalidateCloudfront_requests_witness :
  (forall opts, cloudfrontInvalidateOptions (this (fresh bare)) = Some opts ->
                DistributionIds_truthy (DistributionId opts) = false) /\
  invalidateCloudfront all_fulfilled (fresh bare) = (fresh bare, Ok (Fulfilled None)) /\
  cloudfrontInvalidateOptions
    (this (fresh (with_cloudfront
                    {| DistributionId := DString "E123"; Items := ["/*"] |} bare)))
  = Some {| DistributionId := DString "E123"; Items := ["/*"] |} /\
  DistributionIds_truthy (DString "E123") = true /\
  exists w' p,
    invalidateCloudfront all_fulfilled
      (fresh (with_cloudfront {| DistributionId := DString "E123"; Items := ["/*"] |} bare))
    = (w', Ok p) /\
    cloudfrontInvalidateOptions (this w')
    = Some {| DistributionId := DArray ["E123"]; Items := ["/*"] |} /\
    invalidations w'
    = [{| inv_DistributionId := "E123"; CallerReference := "1700000000000";
          Quantity := 1; inv_Items := ["/*"] |}] /\
    exists l, p = Fulfilled (Some l).
Proof.
  assert (Hnone : forall opts,
            cloudfrontInvalidateOptions (this (fresh bare)) = Some opts ->
            DistributionIds_truthy (DistributionId opts) = false) by (intros opts [=]).
  split; [exact Hnone|].
  split; [exact (proj1 (invalidateCloudfront_requests all_fulfilled (fresh bare)) Hnone)|].
  split; [reflexivity|]. split; [reflexivity|].
  destruct (proj2 (invalidateCloudfront_requests all_fulfilled
              (fresh (with_cloudfront
                        {| DistributionId := DString "E123"; Items := ["/*"] |} bare)))
              _ eq_refl eq_refl)
    as (ids & w' & p & -> & Hrun & Hstored & Hsent & _ & _ & Hfulfilled & _).
  exists w', p. split; [exact Hrun|]. split; [exact Hstored|]. split; [exact Hsent|].
  apply Hfulfilled. intros k _. eexists. reflexivity.
Defined.

End InvalidateWitness.

(** ** [uploadFiles] *)

Section UploadFilesProperties.
Context `{RegExpEngine} `{Host}.
Variable remote : Remote.

(** Uploading a list of files with a connected client sends one request
    for each and returns their handles. *)
Lemma mapM_uploadFile (files : list File) : forall w,
  client (this w) <> None ->
  exists w' handles,
    mapM (fun file => uploadFile remote (name file) (path file)) files w
    = (w', Ok handles) /\
    length (uploads w') = length (uploads w) + length files /\
    map upload handles = seq (length (uploads w)) (length files) /\
    errors w' = errors w /\
    invalidations w' = invalidations w /\
    options (this w') = options (this w).
Proof.
  induction files as [|file files IH]; intros w Hclient.
  - exists w, []. cbn. split_and!; try done; lia.
  - destruct (uploadFile_connected remote (name file) (path file) w Hclient)
      as (w1 & Hrun & Hup & Herr & Hinv & _ & Hc & Hopts & _).
    destruct (IH w1) as (w' & handles & Hrest & Hlen & Hids & Herr' & Hinv' & Hopts');
      [by rewrite Hc|].
    exists w'. eexists. cbn [mapM]. unfold bindM at 1. rewrite Hrun.
    unfold bindM at 1. rewrite Hrest. unfold ret.
    split; [reflexivity|]. rewrite Hup, length_app in Hlen, Hids. cbn in Hlen, Hids.
    split_and!.
    + rewrite Hlen. cbn. lia.
    + cbn. f_equal. rewrite Hids. f_equal. lia.
    + congruence.
    + congruence.
    + congruence.
Qed.

(** C1, as the code has it: without [priority], once the base path is
    resolved, [uploadFiles] sends one request for each file and returns a
    promise that is fulfilled already, whatever the state of the requests:
    it neither waits for them nor is rejected when one of them is. *)
Theorem uploadFiles_fulfilled_regardless (files : list File) (w : World) (item : string) :
  priority (options (this w)) = None ->
  client (this w) <> None ->
  basePathTransform (this w) (basePath (options (this w))) = Fulfilled item ->
  exists w',
    uploadFiles remote files w = (w', Ok (Fulfilled tt)) /\
    length (uploads w') = length (uploads w) + length files.
Proof.
  intros Hpriority Hclient Htransform.
  unfold uploadFiles, transformBasePath.
  cbv beta iota delta [bindM gets ret modify then_].
  rewrite Htransform.
  destruct w as [p errs dsk ups invs bar clk].
  destruct p as [conn tmpl cf bpt opts s3o nocdn cdno cdn cl].
  destruct opts as [dir inc exc bp prio html prog].
  cbn in Hpriority, Hclient. subst prio.
  cbv beta iota delta [with_this with_options set_basePath this options priority
                       progress basePath directory include exclude htmlFiles
                       isConnected uploadOptions cloudfrontInvalidateOptions
                       basePathTransform s3Options noCdnizer cdnizerOptions cdnizer
                       client errors disk uploads invalidations progressBar clock].
  match goal with
  | |- context [mapM _ files ?w1] =>
      destruct (mapM_uploadFile files w1 Hclient)
        as (w' & handles & -> & Hlen & _)
  end.
  cbn [uploads] in Hlen.
  destruct prog; cbv beta iota delta [setupProgressBar modify ret]; eexists;
    (split; [reflexivity|]); cbn [uploads]; exact Hlen.
Qed.

(** With [priority]: [uploadInPriorityOrder] throws before any request is
    sent, and the promise returned is rejected with that [TypeError]. *)
Lemma uploadFiles_priority_throws (files : list File) (w : World) (item : string)
    (patterns : list RegExp) :
  priority (options (this w)) = Some patterns ->
  basePathTransform (this w) (basePath (options (this w))) = Fulfilled item ->
  exists w',
    uploadFiles remote files w
    = (w', Ok (Rejected (mkError "TypeError" "PromiseResolve called on non-object"))) /\
    uploads w' = uploads w.
Proof.
  intros Hpriority Htransform.
  unfold uploadFiles, transformBasePath.
  cbv beta iota delta [bindM gets ret modify then_].
  rewrite Htransform.
  destruct w as [p errs dsk ups invs bar clk].
  destruct p as [conn tmpl cf bpt opts s3o nocdn cdno cdn cl].
  destruct opts as [dir inc exc bp prio html prog].
  cbn in Hpriority. subst prio.
  cbv beta iota delta [with_this with_options set_basePath this options priority
                       progress basePath directory include exclude htmlFiles
                       isConnected uploadOptions cloudfrontInvalidateOptions
                       basePathTransform s3Options noCdnizer cdnizerOptions cdnizer
                       client errors disk uploads invalidations progressBar clock].
  unfold uploadInPriorityOrder, prioritizeFiles.
  cbv beta iota delta [bindM gets ret this options priority default from_option id].
  destruct (removeTiers patterns files) as [tiers rest].
  cbn [map mapM]. cbv beta iota delta [bindM Promise_resolve_unbound throw].
  eexists. split; reflexivity.
Qed.

End UploadFilesProperties.

Section UploadFilesWitness.
#[local] Existing Instance Fixture.engine.
#[local] Existing Instance Fixture.host.
Import Fixture.

(** The upload of [a.js] has failed, and the promise of [uploadFiles] is
    fulfilled. *)
Lemma uploadFiles_fulfilled_regardless_witness :
  priority (options (this (connected bare))) = None /\
  client (this (connected bare)) <> None /\
  basePathTransform (this (connected bare)) (basePath (options (this (connected bare))))
  = Fulfilled "" /\
  upload_promise all_rejected 0 = Rejected failure /\
  exists w',
    uploadFiles all_rejected [a_js] (connected bare) = (w', Ok (Fulfilled tt)) /\
    length (uploads w') = 1.
Proof.
  assert (Hclient : client (this (connected bare)) <> None) by (vm_compute; discriminate).
  split; [reflexivity|]. split; [exact Hclient|]. split; [reflexivity|].
  split; [reflexivity|].
  exact (uploadFiles_fulfilled_regardless all_rejected [a_js] (connected bare) ""
           eq_refl Hclient eq_refl).
Defined.

(** The upload of [a.js] has not settled, and the promise of [uploadFiles]
    is fulfilled. *)
Example uploadFiles_fulfilled_while_pending :
  settled (upload_promise all_pending 0) = false /\
  length (uploads (uploadFiles all_pending [a_js] (connected bare)).1) = 1 /\
  (uploadFiles all_pending [a_js] (connected bare)).2 = Ok (Fulfilled tt).
Proof. split_and!; vm_compute; reflexivity. Qed.

(** With [priority: [/\.css$/]] nothing is sent. *)
Example uploadFiles_priority_sends_nothing :
  uploads (uploadFiles all_fulfilled [a_js; b_css]
             (connected (with_priority [CSS_RE] bare))).1 = [] /\
  (uploadFiles all_fulfilled [a_js; b_css] (connected (with_priority [CSS_RE] bare))).2
  = Ok (Rejected (mkError "TypeError" "PromiseResolve called on non-object")).
Proof. split; vm_compute; reflexivity. Qed.

End UploadFilesWitness.

(** ** [apply] and the [done] hook *)

Section BuildProperties.
Context `{RegExpEngine} `{Host}.
Variable remote : Remote.

(** C4: when the upload options hold no [Bucket], a build pass records
    one error, the configuration error that names [Bucket], after those
    the compilation already has, and sends no upload request and no
    invalidation request. *)
Theorem build_without_Bucket (compiler : Compiler) (compilation : Compilation)
    (w : World) :
  uploadOptions (this w) !! "Bucket" = None ->
  exists w',
    build remote compiler compilation w = (w', Ok tt) /\
    errors w' = errors w ++ [mkError "Error" "S3Plugin-RequiredS3UploadOpts: Bucket"] /\
    uploads w' = uploads w /\
    invalidations w' = invalidations w.
Proof.
  intros Hbucket.
  destruct w as [p errs dsk ups invs bar clk].
  destruct p as [conn tmpl cf bpt opts s3o nocdn cdno cdn cl].
  cbn in Hbucket.
  unfold build, apply, connect.
  cbv beta iota delta [bindM gets ret modify this isConnected].
  destruct conn;
    cbv beta iota delta [bindM gets ret modify with_this with_options set_client
                         set_directory this options uploadOptions s3Options
                         REQUIRED_S3_UP_OPTS forallb];
    rewrite Hbucket;
    cbv beta iota zeta delta [optionConfig_truthy andb done negb compileError modify
                              this errors uploads invalidations];
    eexists; split_and!; reflexivity.
Qed.

End BuildProperties.

Section BuildWitness.
#[local] Existing Instance Fixture.engine.
#[local] Existing Instance Fixture.host.
Import Fixture.

Lemma build_without_Bucket_witness :
  uploadOptions (this (fresh (with_s3UploadOptions ∅ bare))) !! "Bucket" = None /\
  exists w',
    build all_fulfilled compiler compilation (fresh (with_s3UploadOptions ∅ bare))
    = (w', Ok tt) /\
    errors w' = [mkError "Error" "S3Plugin-RequiredS3UploadOpts: Bucket"] /\
    uploads w' = [] /\
    invalidations w' = [].
Proof.
  split; [reflexivity|].
  exact (build_without_Bucket all_fulfilled compiler compilation
           (fresh (with_s3UploadOptions ∅ bare)) eq_refl).
Defined.

(** With a [Bucket] the same pass records no error and sends the two
    assets. *)
Example build_with_Bucket :
  errors (build all_fulfilled compiler compilation (fresh bare)).1 = [] /\
  (fun request : gmap string val => request !! "Key") <$>
    uploads (build all_fulfilled compiler compilation (fresh bare)).1
  = [Some (VString "a.js"); Some (VString "b.css")].
Proof. split; vm_compute; reflexivity. Qed.

End BuildWitness.

(** ** Where [addTrailingS3Sep] puts the separator *)

Section TrailingSeparatorPlace.
Import JsRegExp.
Local Arguments consumed : simpl never.
Local Arguments Ascii.eqb : simpl never.

Ltac append_step :=
  repeat first
    [ progress change (String.append EmptyString ?x) with x in *
    | progress change (String.append (String ?a ?y) ?x)
        with (String a (String.append y x)) in * ].

Lemma lodash_includes_cons_false c s value :
  lodash_includes (String c s) value = false ->
  c <> value /\ lodash_includes s value = false.
Proof.
  cbn. intros [Hc Hs]%orb_false_elim. split; [|done].
  intros ->. by rewrite Ascii.eqb_refl in Hc.
Qed.

(** The first match of the pattern in a path followed by a query or a
    fragment is at the end of the path. *)
Lemma replace_first_path (p rest : string) :
  lodash_includes p "?" = false ->
  lodash_includes p "#" = false ->
  rest = "" \/ (exists c q, rest = String c q /\ (c = "?"%char \/ c = "#"%char)) ->
  replace_first TRAILING_SEP_RE [Lit "/"; Ref 1] (p +:+ rest)
  = Some ((if lodash_endsWith p "/" then p else p +:+ "/") +:+ rest).
Proof.
  intros Hq Hf Hrest. induction p as [|c p IH].
  - append_step; cbn [lodash_endsWith]. destruct Hrest as [->|(c & q & -> & Hc)].
    + reflexivity.
    + rewrite replace_first_eq, (match_here_special _ _ Hc). reflexivity.
  - apply lodash_includes_cons_false in Hq as [Hcq Hq].
    apply lodash_includes_cons_false in Hf as [Hcf Hf].
    specialize (IH Hq Hf). append_step. rewrite replace_first_eq.
    destruct (decide (c = "/"%char)) as [->|Hc].
    + destruct p as [|d p].
      * append_step; cbn [lodash_endsWith]. rewrite Ascii.eqb_refl.
        destruct Hrest as [->|(c & q & -> & Hc)]; [reflexivity|].
        rewrite (match_here_slash_special _ _ Hc). reflexivity.
      * apply lodash_includes_cons_false in Hq as [Hdq _].
        apply lodash_includes_cons_false in Hf as [Hdf _].
        append_step. rewrite match_here_slash_other by done.
        rewrite IH. cbn [lodash_endsWith fmap option_fmap option_map].
        match goal with |- context [if ?b then _ else _] => by destruct b end.
    + rewrite match_here_other by done. rewrite IH.
      destruct p as [|d p].
      * cbn [lodash_endsWith]. rewrite (proj2 (Ascii.eqb_neq c "/") Hc). reflexivity.
      * cbn [lodash_endsWith fmap option_fmap option_map].
        match goal with |- context [if ?b then _ else _] => by destruct b end.
Qed.

(** X1: on a non-empty string made of a path without [?] and [#],
    followed by nothing or by a query or fragment that begins with [?] or
    [#], [addTrailingS3Sep] returns the string itself when the path ends
    with the separator, and otherwise the string with one separator put
    at the end of the path, before the query or fragment. *)
Theorem addTrailingS3Sep_separator_place (p rest : string) :
  lodash_includes p "?" = false ->
  lodash_includes p "#" = false ->
  rest = "" \/ (exists c q, rest = String c q /\ (c = "?"%char \/ c = "#"%char)) ->
  p +:+ rest <> "" ->
  addTrailingS3Sep (p +:+ rest)
  = (if lodash_endsWith p "/" then p else p +:+ "/") +:+ rest.
Proof.
  intros Hq Hf Hrest Hne. unfold addTrailingS3Sep, replace.
  rewrite (replace_first_path p rest Hq Hf Hrest).
  destruct (String.eqb_spec (p +:+ rest) ""); [done|reflexivity].
Qed.

End TrailingSeparatorPlace.

Lemma addTrailingS3Sep_separator_place_witness :
  lodash_includes "assets/v1" "?" = false /\
  lodash_includes "assets/v1" "#" = false /\
  ("?x=1" = "" \/
   exists c q, "?x=1" = String c q /\ (c = "?"%char \/ c = "#"%char)) /\
  "assets/v1" +:+ "?x=1" <> "" /\
  addTrailingS3Sep "assets/v1?x=1" = "assets/v1/?x=1".
Proof.
  assert (Hrest : "?x=1" = "" \/
            exists c q, "?x=1" = String c q /\ (c = "?"%char \/ c = "#"%char))
    by (right; eexists _, _; split; [reflexivity|by left]).
  assert (Hne : "assets/v1" +:+ "?x=1" <> "") by discriminate.
  split; [reflexivity|]. split; [reflexivity|]. split; [exact Hrest|].
  split; [exact Hne|].
  exact (addTrailingS3Sep_separator_place "assets/v1" "?x=1" eq_refl eq_refl Hrest Hne).
Defined.

(** ** Paths: [addSeperatorToPath], [translatePathFromFiles], [getFileName] *)

Ltac append_cons :=
  repeat first
    [ progress change (String.append EmptyString ?x) with x in *
    | progress change (String.append (String ?a ?y) ?x)
        with (String a (String.append y x)) in * ].

Section PathProperties.
Context `{Host}.

Lemma lodash_endsWith_snoc (s : string) (c : ascii) :
  lodash_endsWith (s +:+ String c "") c = true.
Proof.
  induction s as [|a s IH]; append_cons; cbn [lodash_endsWith].
  - apply Ascii.eqb_refl.
  - destruct (s +:+ String c "") eqn:Hs; [by destruct s|exact IH].
Qed.

(** X2: [addSeperatorToPath] leaves the empty path empty, makes every
    other path end with the separator of the platform, and applied twice
    gives what it gives applied once. *)
Theorem addSeperatorToPath_ends_with_separator (fPath : string) :
  addSeperatorToPath "" = "" /\
  (fPath <> "" -> lodash_endsWith (addSeperatorToPath fPath) PATH_SEP = true) /\
  addSeperatorToPath (addSeperatorToPath fPath) = addSeperatorToPath fPath.
Proof.
  assert (Hends : fPath <> "" ->
            lodash_endsWith (addSeperatorToPath fPath) PATH_SEP = true).
  { intros Hne. unfold addSeperatorToPath. cbn [truthy].
    destruct (String.eqb_spec fPath ""); [done|]. cbn [negb].
    destruct (lodash_endsWith fPath PATH_SEP) eqn:He; [done|].
    apply lodash_endsWith_snoc. }
  split; [reflexivity|]. split; [exact Hends|].
  destruct (decide (fPath = "")) as [->|Hne]; [reflexivity|].
  specialize (Hends Hne). revert Hends.
  generalize (addSeperatorToPath fPath) as r. intros r Hr.
  unfold addSeperatorToPath. rewrite Hr. by destruct (negb (truthy (VString r))).
Qed.

Lemma String_split_nonempty (sep : ascii) (s : string) : String_split sep s <> [].
Proof.
  induction s as [|c s IH]; [done|]. cbn.
  destruct (Ascii.eqb c sep); [done|]. by destruct (String_split sep s).
Qed.

Lemma Array_join_cons_char (sep : string) (c : ascii) (piece : string) (pieces : list string) :
  Array_join sep (String c piece :: pieces) = String c (Array_join sep (piece :: pieces)).
Proof. by destruct pieces. Qed.

(** Splitting at a separator and joining with the same separator gives
    the string back. *)
Lemma Array_join_String_split (sep : ascii) (s : string) :
  Array_join (String sep "") (String_split sep s) = s.
Proof.
  induction s as [|c s IH]; [done|]. cbn [String_split].
  destruct (Ascii.eqb_spec c sep) as [->|Hc].
  - pose proof (String_split_nonempty sep s) as Hne.
    destruct (String_split sep s) as [|piece pieces] eqn:Hs; [done|].
    change (Array_join (String sep "") ("" :: piece :: pieces))
      with (String sep (Array_join (String sep "") (piece :: pieces))).
    by rewrite IH.
  - pose proof (String_split_nonempty sep s) as Hne.
    destruct (String_split sep s) as [|piece pieces] eqn:Hs; [done|].
    by rewrite Array_join_cons_char, IH.
Qed.

Lemma String_replace_eq (pattern replacement s : string) :
  String_replace pattern replacement s
  = if String.prefix pattern s
    then replacement +:+ String.substring (String.length pattern)
                           (String.length s - String.length pattern) s
    else match s with
         | EmptyString => EmptyString
         | String c s' => String c (String_replace pattern replacement s')
         end.
Proof. by destruct s. Qed.

Lemma prefix_append (a b : string) : String.prefix a (a +:+ b) = true.
Proof.
  induction a as [|c a IH]; append_cons; cbn [String.prefix]; [by destruct b|].
  by destruct (ascii_dec c c).
Qed.

Lemma substring_all (b : string) : String.substring 0 (String.length b) b = b.
Proof. induction b as [|c b IH]; [done|]. cbn. by rewrite IH. Qed.

Lemma substring_append (a b : string) :
  String.substring (String.length a) (String.length (a +:+ b) - String.length a) (a +:+ b)
  = b.
Proof.
  induction a as [|c a IH]; append_cons.
  - cbn [String.length]. rewrite Nat.sub_0_r. apply substring_all.
  - exact IH.
Qed.

(** The root removed from a path that begins with it. *)
Lemma String_replace_root (rootPath rel : string) :
  String_replace rootPath "" (rootPath +:+ rel) = rel.
Proof.
  by rewrite String_replace_eq, prefix_append, substring_append.
Qed.

(** X3: where the separator of the platform is [/], the files listed
    under a root get as name what follows the root in their path, and
    keep their path. *)
Theorem translatePathFromFiles_relative (rootPath : string) (rels : list string) :
  PATH_SEP = "/"%char ->
  translatePathFromFiles rootPath (map (String.append rootPath) rels)
  = map (fun rel => {| path := rootPath +:+ rel; name := rel |}) rels.
Proof.
  intros Hsep. unfold translatePathFromFiles. rewrite map_map. apply map_ext.
  intros rel. f_equal. rewrite String_replace_root, Hsep.
  apply Array_join_String_split.
Qed.

Lemma lodash_includes_append (a b : string) (c : ascii) :
  lodash_includes (a +:+ b) c = lodash_includes a c || lodash_includes b c.
Proof.
  induction a as [|x a IH]; [done|]. append_cons. cbn [lodash_includes].
  by rewrite IH, orb_assoc.
Qed.

Lemma String_split_pieces (sep : ascii) (s : string) :
  Forall (fun piece => lodash_includes piece sep = false) (String_split sep s).
Proof.
  induction s as [|c s IH]; [by repeat constructor|]. cbn [String_split].
  destruct (Ascii.eqb c sep) eqn:Hc; [by constructor|].
  destruct (String_split sep s) as [|piece pieces]; [repeat constructor; cbn; by rewrite Hc|].
  apply Forall_cons in IH as [Hpiece Hpieces].
  constructor; [|done]. cbn. by rewrite Hc.
Qed.

Lemma Array_join_includes (sep : string) (c : ascii) (pieces : list string) :
  lodash_includes sep c = false ->
  Forall (fun piece => lodash_includes piece c = false) pieces ->
  lodash_includes (Array_join sep pieces) c = false.
Proof.
  intros Hsep. induction 1 as [|piece pieces Hpiece _ IH]; [done|].
  destruct pieces as [|piece' pieces]; [done|].
  change (Array_join sep (piece :: piece' :: pieces))
    with (piece +:+ sep +:+ Array_join sep (piece' :: pieces)).
  by rewrite !lodash_includes_append, Hpiece, Hsep, IH.
Qed.

(** X4: where the separator of the platform is not [/], no name that
    [translatePathFromFiles] gives contains the separator of the
    platform: each one is replaced by [/]. *)
Theorem translatePathFromFiles_no_platform_separator (rootPath : string)
    (files : list string) :
  PATH_SEP <> "/"%char ->
  Forall (fun file => lodash_includes (name file) PATH_SEP = false)
    (translatePathFromFiles rootPath files).
Proof.
  intros Hsep. unfold translatePathFromFiles. apply Forall_map, Forall_forall.
  intros file _. cbn [name]. apply Array_join_includes; [|apply String_split_pieces].
  change (lodash_includes S3_PATH_SEP PATH_SEP)
    with (Ascii.eqb "/" PATH_SEP || false).
  rewrite orb_false_r. apply Ascii.eqb_neq. congruence.
Qed.

End PathProperties.

Section FileNameProperties.
Context `{Host}.

Lemma lodash_lastIndexOf_includes (s : string) (c : ascii) :
  (lodash_includes s c = true -> (0 <= lodash_lastIndexOf s c)%Z) /\
  (lodash_includes s c = false -> lodash_lastIndexOf s c = (-1)%Z).
Proof.
  induction s as [|a s [IHt IHf]]; [done|]. cbn.
  destruct (lodash_includes s c).
  - rewrite orb_true_r. specialize (IHt eq_refl).
    destruct (Z.leb_spec 0 (lodash_lastIndexOf s c)); [|lia]. split; [lia|done].
  - rewrite orb_false_r, (IHf eq_refl). cbn. destruct (Ascii.eqb a c); done.
Qed.

Lemma String_substring_cons (i : Z) (a : ascii) (s : string) :
  (0 <= i)%Z ->
  String_substring (i + 1) (String a s) = String_substring i s.
Proof.
  intros Hi. unfold String_substring.
  replace (Z.to_nat (Z.max 0 (i + 1))) with (S (Z.to_nat (Z.max 0 i))) by lia.
  reflexivity.
Qed.

Lemma String_substring_0 (s : string) : String_substring 0 s = s.
Proof.
  unfold String_substring. cbn. rewrite Nat.sub_0_r. apply substring_all.
Qed.

Lemma String_split_without (sep : ascii) (s : string) :
  lodash_includes s sep = false -> String_split sep s = [s].
Proof.
  induction s as [|a s IH]; [done|]. cbn.
  intros [Ha Hs]%orb_false_elim. by rewrite Ha, (IH Hs).
Qed.

Lemma String_split_with (sep : ascii) (s : string) :
  lodash_includes s sep = true ->
  exists piece piece' pieces, String_split sep s = piece :: piece' :: pieces.
Proof.
  induction s as [|a s IH]; [done|]. cbn [String_split lodash_includes].
  destruct (Ascii.eqb a sep); cbn [orb].
  - intros _. pose proof (String_split_nonempty sep s).
    destruct (String_split sep s); [done|eauto].
  - intros (piece & piece' & pieces & ->)%IH. eauto.
Qed.

(** X5: [getFileName] returns the last of the pieces that the separator
    of the platform splits the path into; what it returns contains no
    separator, and a path without a separator is returned as it is. *)
Theorem getFileName_last_piece (file : string) :
  Some (getFileName file) = last (String_split PATH_SEP file) /\
  lodash_includes (getFileName file) PATH_SEP = false /\
  (lodash_includes file PATH_SEP = false -> getFileName file = file).
Proof.
  assert (Hlast : Some (getFileName file) = last (String_split PATH_SEP file)).
  { unfold getFileName. induction file as [|a file IH].
    - reflexivity.
    - destruct (lodash_lastIndexOf_includes file PATH_SEP) as [Hin Hout].
      cbn [lodash_includes lodash_lastIndexOf String_split].
      destruct (lodash_includes file PATH_SEP) eqn:Hfile.
      + specialize (Hin eq_refl). rewrite orb_true_r.
        destruct (Z.leb_spec 0 (lodash_lastIndexOf file PATH_SEP)); [|lia].
        rewrite String_substring_cons by lia. rewrite IH.
        destruct (String_split_with _ _ Hfile) as (piece & piece' & pieces & ->).
        by destruct (Ascii.eqb a PATH_SEP).
      + rewrite (Hout eq_refl), orb_false_r in *. cbn [Z.leb Z.compare].
        rewrite (String_split_without _ _ Hfile).
        destruct (Ascii.eqb a PATH_SEP); [|done].
        cbn [Z.add]. by rewrite (String_substring_cons 0), String_substring_0. }
  split; [exact Hlast|]. split.
  - pose proof (String_split_pieces PATH_SEP file) as Hpieces.
    symmetry in Hlast. apply last_Some in Hlast as [pieces Hsplit].
    rewrite Hsplit in Hpieces. by apply Forall_app in Hpieces as [_ [? _]%Forall_cons].
  - intros Hfile. unfold getFileName. by rewrite Hfile.
Qed.

End FileNameProperties.

Section PathWitness.
Import Fixture.

Lemma addSeperatorToPath_ends_with_separator_witness :
  "/out" <> "" /\
  lodash_endsWith (addSeperatorToPath (H := host) "/out") (PATH_SEP (Host := host))
  = true /\
  addSeperatorToPath (H := host) "/out" = "/out/".
Proof.
  assert (Hne : "/out" <> "") by discriminate.
  split; [exact Hne|].
  split; [|reflexivity].
  exact (proj1 (proj2 (addSeperatorToPath_ends_with_separator (H := host) "/out")) Hne).
Defined.

Lemma translatePathFromFiles_relative_witness :
  PATH_SEP (Host := host) = "/"%char /\
  translatePathFromFiles (H := host) "/out/" ["/out/a.js"; "/out/css/b.css"]
  = [{| path := "/out/a.js"; name := "a.js" |};
     {| path := "/out/css/b.css"; name := "css/b.css" |}].
Proof.
  split; [reflexivity|].
  exact (translatePathFromFiles_relative (H := host) "/out/" ["a.js"; "css/b.css"] eq_refl).
Defined.

Lemma translatePathFromFiles_no_platform_separator_witness :
  PATH_SEP (Host := windows) <> "/"%char /\
  Forall (fun file => lodash_includes (name file) (PATH_SEP (Host := windows)) = false)
    (translatePathFromFiles (H := windows) "C:\out\" ["C:\out\css\b.css"]) /\
  translatePathFromFiles (H := windows) "C:\out\" ["C:\out\css\b.css"]
  = [{| path := "C:\out\css\b.css"; name := "css/b.css" |}].
Proof.
  assert (Hsep : PATH_SEP (Host := windows) <> "/"%char) by discriminate.
  split; [exact Hsep|]. split; [|reflexivity].
  exact (translatePathFromFiles_no_platform_separator (H := windows)
           "C:\out\" ["C:\out\css\b.css"] Hsep).
Defined.

Lemma getFileName_last_piece_witness :
  lodash_includes "b.css" (PATH_SEP (Host := host)) = false /\
  getFileName (H := host) "b.css" = "b.css" /\
  getFileName (H := host) "/out/css/b.css" = "b.css".
Proof.
  split; [reflexivity|]. split; [|reflexivity].
  exact (proj2 (proj2 (getFileName_last_piece (H := host) "b.css")) eq_refl).
Defined.

End PathWitness.

(** ** Rules and the filter at their edges *)

Section RuleEdges.
Context `{RegExpEngine}.

(** X6: the result of an array rule is that of its first member that
    does not return [true]: the members after it are not evaluated, so
    that a member of no rule shape after a member that returns [false]
    does not make the array throw. *)
Theorem testRule_array_first_failure (before after : list Rule) (rule : Rule)
    (subject : string) :
  Forall (fun r => testRule r subject = Ok true) before ->
  testRule rule subject <> Ok true ->
  testRule (RArray (before ++ rule :: after)) subject = testRule rule subject.
Proof.
  intros Hbefore Hrule. cbn [testRule].
  induction Hbefore as [|r before Hr _ IH]; cbn [app every].
  - destruct (testRule rule subject) as [[]|e]; done.
  - rewrite Hr. exact IH.
Qed.

(** The file passes [include]: no include rule is configured, or the rule
    matches. *)
Local Abbreviation include_passes this file :=
  (Rule_truthy (include (options this)) = false \/
   testRule (include (options this)) (name file) = Ok true).

Local Abbreviation exclude_matches this file :=
  (Rule_truthy (exclude (options this)) = true /\
   testRule (exclude (options this)) (name file) = Ok true).

Local Abbreviation kept this file :=
  (include_passes this file /\ ~ exclude_matches this file /\
   ~ isIgnoredFile (name file) = Ok true).

Lemma filterAllowedFiles_result (this : S3Plugin) (files res : list File) :
  filterAllowedFiles this files = Ok res ->
  res = filter (fun file => kept this file) files.
Proof.
  intros Hres. unfold filterAllowedFiles in Hres.
  rewrite filterAllowedFiles_from_spec in Hres by eauto using filterAllowedFiles_from_Ok.
  by injection Hres as <-.
Qed.


(** X8: an [exclude] option that holds the empty array matches every
    name: whenever [filterAllowedFiles] returns, it returns no file. *)
Theorem filterAllowedFiles_exclude_empty_array (this : S3Plugin)
    (files res : list File) :
  exclude (options this) = RArray [] ->
  filterAllowedFiles this files = Ok res ->
  res = [].
Proof.
  intros Hexclude Hres. apply filterAllowedFiles_result in Hres as ->.
  induction files as [|file files IH]; [done|].
  rewrite filter_cons, decide_False; [exact IH|].
  intros (_ & Hnot & _). apply Hnot. by rewrite Hexclude.
Qed.

(** X9: an [include] option that is truthy and of no rule shape makes
    [filterAllowedFiles] throw the invalid-rule error at the first file;
    without a file no rule is evaluated and the empty list is returned. *)
Theorem filterAllowedFiles_invalid_include (this : S3Plugin) (v : NonRule)
    (file : File) (files : list File) :
  include (options this) = ROther v ->
  truthy (NonRule_val v) = true ->
  filterAllowedFiles this [] = Ok [] /\
  filterAllowedFiles this (file :: files)
  = Throw (mkError "Error" "Invalid include / exclude rule").
Proof.
  intros Hinclude Htruthy. split; [reflexivity|].
  unfold filterAllowedFiles. cbn [filterAllowedFiles_from].
  unfold isIncludeAndNotExclude. rewrite Hinclude. cbn [Rule_truthy].
  rewrite Htruthy. reflexivity.
Qed.

End RuleEdges.

Section RuleEdgesWitness.
#[local] Existing Instance Fixture.engine.
Import Fixture.

(** [[/\.css$/, 42]] on [a.js]: the number is not reached. *)
Lemma testRule_array_first_failure_witness :
  Forall (fun r => testRule r "a.js" = Ok true) [RString "a"] /\
  testRule (RRegExp CSS_RE) "a.js" <> Ok true /\
  testRule (RArray [RString "a"; RRegExp CSS_RE; ROther (NNumber 42)]) "a.js" = Ok false.
Proof.
  assert (Hbefore : Forall (fun r => testRule r "a.js" = Ok true) [RString "a"])
    by (repeat constructor).
  assert (Hrule : testRule (RRegExp CSS_RE) "a.js" <> Ok true)
    by (vm_compute; discriminate).
  split; [exact Hbefore|]. split; [exact Hrule|].
  exact (testRule_array_first_failure [RString "a"] [ROther (NNumber 42)]
           (RRegExp CSS_RE) "a.js" Hbefore Hrule).
Defined.


Lemma filterAllowedFiles_exclude_empty_array_witness :
  exclude (options (new_S3Plugin (with_rules no_rule (RArray []) bare))) = RArray [] /\
  filterAllowedFiles (new_S3Plugin (with_rules no_rule (RArray []) bare)) [a_js; b_css]
  = Ok [].
Proof.
  split; [reflexivity|].
  assert (Hrun : exists res,
            filterAllowedFiles (new_S3Plugin (with_rules no_rule (RArray []) bare))
              [a_js; b_css] = Ok res) by (eexists; vm_compute; reflexivity).
  destruct Hrun as [res Hres]. rewrite Hres. f_equal.
  exact (filterAllowedFiles_exclude_empty_array
           (new_S3Plugin (with_rules no_rule (RArray []) bare)) [a_js; b_css] res
           eq_refl Hres).
Defined.

Lemma filterAllowedFiles_invalid_include_witness :
  include (options (new_S3Plugin (with_rules (ROther (NNumber 42)) no_rule bare)))
  = ROther (NNumber 42) /\
  truthy (NonRule_val (NNumber 42)) = true /\
  filterAllowedFiles (new_S3Plugin (with_rules (ROther (NNumber 42)) no_rule bare))
    [a_js; b_css]
  = Throw (mkError "Error" "Invalid include / exclude rule").
Proof.
  split; [reflexivity|]. split; [reflexivity|].
  exact (proj2 (filterAllowedFiles_invalid_include
                  (new_S3Plugin (with_rules (ROther (NNumber 42)) no_rule bare))
                  (NNumber 42) a_js [b_css] eq_refl eq_refl)).
Defined.

End RuleEdgesWitness.
Section IgnoredFiles.
Import JsRegExp.
Local Arguments Ascii.eqb : simpl never.
Local Arguments is_line_terminator : simpl never.

(** A pattern matches somewhere in a string when it matches at the head
    of one of its suffixes. *)
Lemma search_is_Some (r : regexp) (s : string) :
  is_Some (search r s) <->
  exists pre suffix, s = pre +:+ suffix /\ is_Some (match_here r suffix).
Proof.
  induction s as [|c s IH].
  - cbn. split.
    + intros Hs. exists "", "". split; [done|]. by destruct (match_here r "").
    + intros (pre & suffix & Hs & Hm). destruct pre; [|done].
      append_cons. subst suffix. by destruct (match_here r "").
  - cbn [search]. destruct (match_here r (String c s)) as [x|] eqn:Hhere.
    + split; [|eauto]. intros _. exists "", (String c s). by rewrite Hhere.
    + rewrite IH. split.
      * intros (pre & suffix & -> & Hm). by exists (String c pre), suffix.
      * intros (pre & suffix & Hs & Hm). destruct pre as [|c' pre]; append_cons.
        { subst suffix. rewrite Hhere in Hm. by destruct Hm. }
        injection Hs as -> ->. eauto.
Qed.

Lemma match_here_DS_Store (re : regexp) (s : string) :
  compile ".DS_Store" = Ok re ->
  is_Some (match_here re s) <->
  exists c post, s = String c ("DS_Store" +:+ post) /\ is_line_terminator c = false.
Proof.
  vm_compute compile. intros [= <-]. unfold match_here. split.
  - intros Hm. destruct s as [|c s]; [by destruct Hm|].
    cbn [m] in Hm. destruct (is_line_terminator c) eqn:Hc; [by destruct Hm|].
    exists c.
    repeat match type of Hm with
      | is_Some (match ?t with EmptyString => _ | String _ _ => _ end) =>
          destruct t as [|? ?]; [by destruct Hm|];
          match type of Hm with
          | context [Ascii.eqb ?a ?b] =>
              destruct (Ascii.eqb_spec a b) as [<-|?]; [|by destruct Hm]
          end
      end.
    eexists. split; [reflexivity|done].
  - intros (c & post & -> & Hc). append_cons. cbn [m]. rewrite Hc.
    rewrite !Ascii.eqb_refl. done.
Qed.

(** X10: [isIgnoredFile] never throws, and it holds of exactly the names
    in which some character that is not a line terminator is followed by
    [DS_Store]: the dot of ['.DS_Store'] is the wildcard of the pattern it
    is compiled to. *)
Theorem isIgnoredFile_DS_Store (file : string) :
  (exists b, isIgnoredFile file = Ok b) /\
  (isIgnoredFile file = Ok true <->
   exists pre c post,
     file = pre +:+ String c ("DS_Store" +:+ post) /\ is_line_terminator c = false).
Proof.
  split; [apply isIgnoredFile_total|].
  unfold isIgnoredFile, UPLOAD_IGNORES. cbn [some].
  destruct compile_DS_Store as [re Hre]. rewrite Hre. cbn [bind].
  unfold test. case_bool_decide as Hsearch.
  - split; [intros _|done].
    apply search_is_Some in Hsearch as (pre & suffix & -> & Hm).
    apply (match_here_DS_Store re _ Hre) in Hm as (c & post & -> & Hc). eauto.
  - split; [done|]. intros (pre & c & post & -> & Hc). destruct Hsearch.
    apply search_is_Some. exists pre, (String c ("DS_Store" +:+ post)).
    split; [done|]. apply (match_here_DS_Store re _ Hre). eauto.
Qed.

End IgnoredFiles.

(** [.DS_Store] in a folder is ignored and so is [myDS_Store.js]; the
    bare name [DS_Store] is not. *)
Lemma isIgnoredFile_DS_Store_witness :
  isIgnoredFile "img/.DS_Store" = Ok true /\
  isIgnoredFile "myDS_Store.js" = Ok true /\
  isIgnoredFile "DS_Store" = Ok false.
Proof.
  split; [|split; [|vm_compute; reflexivity]].
  - apply (proj2 (proj2 (isIgnoredFile_DS_Store "img/.DS_Store"))).
    exists "img/", "."%char, "". split; reflexivity.
  - apply (proj2 (proj2 (isIgnoredFile_DS_Store "myDS_Store.js"))).
    exists "m", "y"%char, ".js". split; reflexivity.
Defined.

(** ** The client and single uploads *)

Section ClientProperties.
Context `{RegExpEngine} `{Host}.
Variable remote : Remote.

(** X11: [connect] creates the client from [s3Options] once: it leaves a
    connected instance as it is, so that connecting twice is connecting
    once, and after it the instance is connected and has a client. *)
Theorem connect_once (w : World) :
  (isConnected (this w) = true -> connect w = (w, Ok tt)) /\
  (isConnected (this w) = false ->
   client (this (connect w).1) = Some (s3Options (this w))) /\
  isConnected (this (connect w).1) = true /\
  (connect ;;; connect) w = connect w.
Proof.
  destruct w as [p errs dsk ups invs bar clk].
  destruct p as [conn tmpl cf bpt opts s3o nocdn cdno cdn cl].
  unfold connect. cbv beta iota delta [bindM gets ret modify this isConnected].
  destruct conn; cbn; done.
Qed.

(** X12: without a client, that is before [connect], [uploadFile] throws
    a [TypeError], sends nothing and changes nothing. *)
Theorem uploadFile_not_connected (fileName file : string) (w : World) :
  client (this w) = None ->
  exists e,
    uploadFile remote fileName file w = (w, Throw e) /\
    err_name e = "TypeError".
Proof.
  destruct w as [p errs dsk ups invs bar clk].
  destruct p as [conn tmpl cf bpt opts s3o nocdn cdno cdn [c|]]; [done|intros _].
  cbv beta iota zeta delta [uploadFile client_upload bindM gets modify ret throw
                            this client].
  eexists. split; reflexivity.
Qed.

(** X13: the [ContentType] of the request is the one the template
    defines; when the template defines none it is the type that [mime]
    infers from the file name, and it stays undefined when [mime] knows
    none. *)
Theorem uploadFile_ContentType (fileName file : string) (w : World) :
  client (this w) <> None ->
  exists request,
    uploads (uploadFile remote fileName file w).1 = uploads w ++ [request] /\
    (forall v, template_of (this w) fileName file !! "ContentType" = Some v ->
               v <> VUndefined -> request !! "ContentType" = Some v) /\
    (default VUndefined (template_of (this w) fileName file !! "ContentType")
     = VUndefined ->
     (forall contentType,
        mime_getType fileName = Some contentType -> contentType <> "" ->
        request !! "ContentType" = Some (VString contentType)) /\
     (mime_getType fileName = None ->
      default VUndefined (request !! "ContentType") = VUndefined)).
Proof.
  intros Hclient.
  destruct (uploadFile_connected remote fileName file w Hclient) as (w' & -> & Hup & _).
  exists (request_of (this w) fileName file). split; [exact Hup|]. split.
  - intros v. apply request_lookup_defined.
  - intros Hundef. rewrite request_lookup.
    rewrite bool_decide_eq_true_2 by done.
    assert (Hbase : (({[ "Key" := VString (Key_of (this w) fileName);
                          "Body" := VStream file ]} : gmap string val)
                       !! "ContentType") = None) by done.
    assert (Hdefault : DEFAULT_UPLOAD_OPTIONS !! "ContentType" = None) by done.
    rewrite Hbase, Hdefault. split.
    + intros contentType -> Hne. cbn [truthy].
      destruct (String.eqb_spec contentType ""); [done|]. cbn [negb].
      by rewrite lookup_insert_eq.
    + intros ->. cbn [assignMergeValue].
      destruct (template_of (this w) fileName file !! "ContentType") as [v|]; [|done].
      cbn in Hundef. by subst v.
Qed.

(** Uploading a list of files with a connected client: the requests sent
    and the handles returned. *)
Lemma mapM_uploadFile_requests (files : list File) : forall w,
  client (this w) <> None ->
  exists w',
    mapM (fun file => uploadFile remote (name file) (path file)) files w
    = (w', Ok (map (fun n => {| upload := n; promise := upload_promise remote n |})
                 (seq (length (uploads w)) (length files)))) /\
    uploads w'
    = uploads w ++ map (fun file => request_of (this w) (name file) (path file)) files /\
    errors w' = errors w /\
    invalidations w' = invalidations w /\
    client (this w') = client (this w) /\
    options (this w') = options (this w) /\
    uploadOptions (this w') = uploadOptions (this w) /\
    basePathTransform (this w') = basePathTransform (this w) /\
    cloudfrontInvalidateOptions (this w') = cloudfrontInvalidateOptions (this w).
Proof.
  induction files as [|file files IH]; intros w Hclient.
  - exists w. cbn. rewrite app_nil_r. done.
  - destruct (uploadFile_connected remote (name file) (path file) w Hclient)
      as (w1 & Hrun & Hup & Herr & Hinv & _ & Hc & Hopts & Htmpl & _ & Hbpt & Hcf).
    destruct (IH w1) as (w' & Hrest & Hup' & Herr' & Hinv' & Hc' & Hopts' & Htmpl' & Hbpt' & Hcf');
      [by rewrite Hc|].
    exists w'. cbn [mapM]. unfold bindM at 1. rewrite Hrun.
    unfold bindM at 1. rewrite Hrest. unfold ret.
    split_and!; try congruence.
    + cbn [length seq map]. do 3 f_equal.
      rewrite Hup, length_app. cbn [length]. by rewrite Nat.add_1_r.
    + rewrite Hup', Hup, Hopts, Htmpl, <- app_assoc. reflexivity.
Qed.

(** X14: with a connected client [uploadPriorityChunk] sends one request
    for each file of the chunk and returns a promise that is fulfilled
    exactly when every one of these uploads succeeded, and rejected exactly
    when one of them failed. *)
Theorem uploadPriorityChunk_waits (priorityChunk : list File) (w : World) :
  client (this w) <> None ->
  exists w' p,
    uploadPriorityChunk remote priorityChunk w = (w', Ok p) /\
    length (uploads w') = length (uploads w) + length priorityChunk /\
    ((exists l, p = Fulfilled l) <->
     forall k, k < length priorityChunk ->
       upload_promise remote (length (uploads w) + k) = Fulfilled tt) /\
    ((exists e, p = Rejected e) <->
     exists k e, k < length priorityChunk /\
       upload_promise remote (length (uploads w) + k) = Rejected e).
Proof.
  intros Hclient. unfold uploadPriorityChunk, bindM at 1.
  destruct (mapM_uploadFile_requests priorityChunk w Hclient) as (w' & -> & Hup & _).
  unfold ret. eexists _, _. split; [reflexivity|].
  split; [by rewrite Hup, length_app, length_map|].
  rewrite map_map. cbn [promise].
  rewrite Promise_all_Fulfilled, Promise_all_Rejected.
  rewrite List.Forall_map, List.Forall_forall, List.Exists_exists.
  split; split.
  - intros Hall k Hk.
    destruct (Hall (length (uploads w) + k)) as [[] Hf]; [apply in_seq; lia|done].
  - intros Hall n [Hn1 Hn2]%in_seq. exists tt.
    replace n with (length (uploads w) + (n - length (uploads w))) by lia.
    apply Hall. lia.
  - intros (x & (n & <- & [Hn1 Hn2]%in_seq)%in_map_iff & e & He).
    exists (n - length (uploads w)), e. split; [lia|].
    by replace (length (uploads w) + (n - length (uploads w))) with n by lia.
  - intros (k & e & Hk & He). eexists. split; [|eauto].
    apply in_map_iff. exists (length (uploads w) + k). split; [done|apply in_seq; lia].
Qed.

Lemma addTrailingS3Sep_fixed (s : string) :
  addTrailingS3Sep (addTrailingS3Sep s) = addTrailingS3Sep s.
Proof.
  destruct (addTrailingS3Sep_cases s) as [E|E]; [congruence|].
  revert E. generalize (addTrailingS3Sep s) as r. intros r Hr.
  unfold addTrailingS3Sep. destruct (negb (r =? "")%string); [|done].
  unfold JsRegExp.replace. by rewrite (replace_first_fixed _ _ Hr).
Qed.

(** X15: while the promise of [basePathTransform] is pending
    [uploadFiles] is pending, and when it is rejected [uploadFiles] is
    rejected with the same reason; in both cases nothing is sent and the
    base path is left as it was. *)
Theorem uploadFiles_transform_not_fulfilled (files : list File) (w : World) :
  (basePathTransform (this w) (basePath (options (this w))) = Pending ->
   uploadFiles remote files w = (w, Ok Pending)) /\
  (forall e,
     basePathTransform (this w) (basePath (options (this w))) = Rejected e ->
     uploadFiles remote files w = (w, Ok (Rejected e))).
Proof.
  split; [intros Htransform|intros e Htransform];
    unfold uploadFiles, transformBasePath;
    cbv beta iota delta [bindM gets ret modify then_];
    rewrite Htransform; reflexivity.
Qed.

(** X16: with the default [basePathTransform], resolving the base path a
    second time changes nothing: the separator is not added twice over
    the passes of a watching build. *)
Theorem transformBasePath_default_stable (w : World) :
  basePathTransform (this w) = DEFAULT_TRANSFORM ->
  (transformBasePath ;;; transformBasePath) w = transformBasePath w /\
  basePath (options (this (transformBasePath w).1))
  = addTrailingS3Sep (basePath (options (this w))).
Proof.
  destruct w as [p errs dsk ups invs bar clk].
  destruct p as [conn tmpl cf bpt opts s3o nocdn cdno cdn cl].
  destruct opts as [dir inc exc bp prio html prog].
  cbn [this basePathTransform]. intros ->.
  unfold transformBasePath.
  cbv beta iota zeta delta [bindM gets ret modify then_ DEFAULT_TRANSFORM with_this
                            with_options set_basePath this options basePath
                            basePathTransform fst].
  by rewrite addTrailingS3Sep_fixed.
Qed.

End ClientProperties.

(** ** The pipeline of a build pass *)

Section PipelineProperties.
Context `{RegExpEngine} `{Host}.
Variable remote : Remote.

(** Without [priority] and with a connected client: the requests that
    [uploadFiles] sends. *)
Lemma uploadFiles_requests (files : list File) (w : World) (item : string) :
  priority (options (this w)) = None ->
  client (this w) <> None ->
  basePathTransform (this w) (basePath (options (this w))) = Fulfilled item ->
  exists w',
    uploadFiles remote files w = (w', Ok (Fulfilled tt)) /\
    uploads w'
    = uploads w ++
      map (fun file =>
             request_of (with_options (set_basePath (addTrailingS3Sep item)) (this w))
               (name file) (path file))
        files /\
    errors w' = errors w /\
    invalidations w' = invalidations w /\
    cloudfrontInvalidateOptions (this w') = cloudfrontInvalidateOptions (this w).
Proof.
  intros Hpriority Hclient Htransform.
  unfold uploadFiles, transformBasePath.
  cbv beta iota delta [bindM gets ret modify then_].
  rewrite Htransform.
  destruct w as [p errs dsk ups invs bar clk].
  destruct p as [conn tmpl cf bpt opts s3o nocdn cdno cdn cl].
  destruct opts as [dir inc exc bp prio html prog].
  cbn in Hpriority, Hclient. subst prio.
  cbv beta iota delta [with_this with_options set_basePath this options priority
                       progress basePath directory include exclude htmlFiles
                       isConnected uploadOptions cloudfrontInvalidateOptions
                       basePathTransform s3Options noCdnizer cdnizerOptions cdnizer
                       client errors disk uploads invalidations progressBar clock].
  match goal with
  | |- context [mapM _ files ?w1] =>
      destruct (mapM_uploadFile_requests remote files w1 Hclient)
        as (w' & -> & Hup & Herr & Hinv & _ & _ & _ & _ & Hcf)
  end.
  cbn [uploads errors invalidations this cloudfrontInvalidateOptions] in Hup, Herr, Hinv, Hcf.
  destruct prog; cbv beta iota delta [setupProgressBar modify ret]; eexists;
    (split; [reflexivity|]);
    cbn [uploads errors invalidations this cloudfrontInvalidateOptions]; done.
Qed.

(** The filter looks at the [include] and [exclude] options only. *)
Lemma filterAllowedFiles_from_options (p q : S3Plugin) (files : list File) : forall res,
  include (options p) = include (options q) ->
  exclude (options p) = exclude (options q) ->
  filterAllowedFiles_from p res files = filterAllowedFiles_from q res files.
Proof.
  intros res Hinclude Hexclude. revert res.
  induction files as [|file files IH]; intros res; [done|].
  cbn [filterAllowedFiles_from]. unfold isIncludeAndNotExclude.
  rewrite Hinclude, Hexclude.
  destruct (if Rule_truthy (include (options q)) then _ else _) as [i|]; [|done].
  cbn [bind].
  destruct (if Rule_truthy (exclude (options q)) then _ else _) as [x|]; [|done].
  cbn [bind]. destruct (i && negb x); cbn [bind].
  - destruct (isIgnoredFile (name file)) as [ignored|]; [|done]. cbn [bind]. apply IH.
  - apply IH.
Qed.

(** The identifiers that [invalidateCloudfront] sends a request for. *)
Local Abbreviation DistributionIds_of cf :=
  (match cf with
   | Some opts =>
       match DistributionId opts with
       | DArray l => l
       | DString s => if truthy (VString s) then [s] else []
       | DNone => []
       end
   | None => []
   end).

Lemma map_inv_DistributionId_imap (g : nat -> string -> InvalidationRequest)
    (l : list string) :
  (forall k id, inv_DistributionId (g k id) = id) ->
  map inv_DistributionId (imap g l) = l.
Proof.
  revert g. induction l as [|id l IH]; intros g Hg; [done|].
  cbn. rewrite Hg. f_equal. apply IH. intros k id'. apply Hg.
Qed.

Lemma invalidateCloudfront_run (w : World) :
  exists w' p,
    invalidateCloudfront remote w = (w', Ok p) /\
    uploads w' = uploads w /\
    errors w' = errors w /\
    map inv_DistributionId (invalidations w')
    = map inv_DistributionId (invalidations w)
      ++ DistributionIds_of (cloudfrontInvalidateOptions (this w)).
Proof.
  unfold invalidateCloudfront. cbv beta iota delta [bindM gets ret modify].
  destruct (cloudfrontInvalidateOptions (this w)) as [opts|] eqn:Hopts.
  2:{ eexists _, _. split; [reflexivity|]. by rewrite app_nil_r. }
  destruct (DistributionIds_truthy (DistributionId opts)) eqn:Htruthy.
  2:{ eexists _, _. split; [reflexivity|]. split_and!; [done..|].
      destruct (DistributionId opts) as [|s|l]; [by rewrite app_nil_r| |done].
      cbn in Htruthy. cbn [truthy]. rewrite Htruthy. by rewrite app_nil_r. }
  match goal with
  | |- context [mapM _ ?ids ?w1] =>
      destruct (mapM_createInvalidation remote (Items opts) ids w1)
        as (w' & -> & Hinv & _ & _ & Hup & Herr)
  end.
  eexists _, _. split; [reflexivity|].
  destruct w as [p0 errs dsk ups invs bar clk].
  cbn [uploads errors invalidations with_this] in *.
  split_and!; [done..|].
  rewrite Hinv, map_app. f_equal.
  destruct (DistributionId opts) as [|s|l]; [done|..].
  - cbn in Htruthy. cbn [truthy]. by rewrite Htruthy.
  - by apply map_inv_DistributionId_imap.
Qed.

(** Without the rewriting of URLs and without [priority]: [handleFiles]
    filters, uploads what is kept and then invalidates. *)
Lemma handleFiles_run (files kept : list File) (w : World) (item : string) :
  noCdnizer (this w) = true ->
  priority (options (this w)) = None ->
  client (this w) <> None ->
  basePathTransform (this w) (basePath (options (this w))) = Fulfilled item ->
  filterAllowedFiles (this w) files = Ok kept ->
  exists w1 w' p,
    uploadFiles remote kept w = (w1, Ok (Fulfilled tt)) /\
    invalidateCloudfront remote w1 = (w', Ok p) /\
    handleFiles remote files w = (w', Ok p).
Proof.
  intros Hcdn Hpriority Hclient Htransform Hkept.
  destruct (uploadFiles_requests kept w item Hpriority Hclient Htransform)
    as (w1 & Hupload & _).
  destruct (invalidateCloudfront_run w1) as (w' & p & Hinv & _).
  exists w1, w', p. split; [exact Hupload|]. split; [exact Hinv|].
  unfold handleFiles, changeUrls.
  cbv beta iota delta [bindM gets ret lift then_].
  rewrite Hcdn, Hkept, Hupload, Hinv. reflexivity.
Qed.


(** X18: in the same pass the invalidation requests are sent, one for
    each configured identifier, once the upload requests are sent: whether
    the uploads have succeeded, failed or not settled yet plays no part. *)
Theorem handleFiles_invalidates_at_once (files kept : list File) (w : World)
    (item : string) :
  noCdnizer (this w) = true ->
  priority (options (this w)) = None ->
  client (this w) <> None ->
  basePathTransform (this w) (basePath (options (this w))) = Fulfilled item ->
  filterAllowedFiles (this w) files = Ok kept ->
  exists w' p,
    handleFiles remote files w = (w', Ok p) /\
    length (uploads w') = length (uploads w) + length kept /\
    map inv_DistributionId (invalidations w')
    = map inv_DistributionId (invalidations w)
      ++ DistributionIds_of (cloudfrontInvalidateOptions (this w)).
Proof.
  intros Hcdn Hpriority Hclient Htransform Hkept.
  destruct (handleFiles_run files kept w item Hcdn Hpriority Hclient Htransform Hkept)
    as (w1 & w' & p & Hupload & Hinv & Hrun).
  destruct (uploadFiles_requests kept w item Hpriority Hclient Htransform)
    as (w1' & Hupload' & Hup & _ & Hinvs & Hcf).
  rewrite Hupload in Hupload'. injection Hupload' as <-.
  destruct (invalidateCloudfront_run w1) as (w'' & p' & Hinv' & Hup' & _ & Hids).
  rewrite Hinv in Hinv'. injection Hinv' as <- <-.
  exists w', p. split; [exact Hrun|]. split.
  - by rewrite Hup', Hup, length_app, length_map.
  - by rewrite Hids, Hinvs, Hcf.
Qed.

(** X19: when a directory is configured and listing it fails, the build
    pass records one error, the listing error behind the prefix
    [S3Plugin: ], and sends no request. *)
Theorem build_unreadable_directory (compiler : Compiler) (compilation : Compilation)
    (w : World) (dir : string) (e : Error) :
  optionConfig_truthy (uploadOptions (this w) !! "Bucket") = true ->
  directory (options (this w)) = Some dir ->
  dir <> "" ->
  readDir (addSeperatorToPath dir) = Throw e ->
  err_name e <> "" ->
  err_message e <> "" ->
  exists w',
    build remote compiler compilation w = (w', Ok tt) /\
    errors w'
    = errors w ++ [mkError "Error" ("S3Plugin: " +:+ err_name e +:+ ": " +:+ err_message e)] /\
    uploads w' = uploads w /\
    invalidations w' = invalidations w.
Proof.
  destruct w as [p errs dsk ups invs bar clk].
  destruct p as [conn tmpl cf bpt opts s3o nocdn cdno cdn cl].
  destruct opts as [d inc exc bp prio html prog].
  cbn [this options uploadOptions directory]. intros Hbucket -> Hdir Hread _ _.
  assert (Htruthy : str_truthy (Some dir) = true).
  { cbn. by destruct (String.eqb_spec dir ""). }
  unfold build, apply, connect.
  destruct conn;
    cbv beta iota zeta delta [bindM gets ret modify with_this with_options set_client
                              set_directory this options uploadOptions s3Options
                              isConnected directory REQUIRED_S3_UP_OPTS forallb];
    rewrite Hbucket, Htruthy;
    cbv beta iota zeta delta [andb negb done bindM gets ret this options directory
                              default from_option id getAllFilesRecursive
                              getDirectoryFilesRecursive];
    rewrite Hread;
    cbv beta iota zeta delta [then_ catch_ ret handleErrors bindM compileError modify
                              throw errors uploads invalidations Error_toString];
    eexists; split_and!; reflexivity.
Qed.

(** With [priority]: what [uploadFiles] leaves behind. *)
Lemma uploadFiles_priority_run (files : list File) (w : World) (item : string)
    (patterns : list RegExp) :
  priority (options (this w)) = Some patterns ->
  basePathTransform (this w) (basePath (options (this w))) = Fulfilled item ->
  uploadFiles remote files w
  = (with_this (with_options (set_basePath (addTrailingS3Sep item))) w,
     Ok (Rejected (mkError "TypeError" "PromiseResolve called on non-object"))).
Proof.
  intros Hpriority Htransform.
  unfold uploadFiles, transformBasePath.
  cbv beta iota delta [bindM gets ret modify then_].
  rewrite Htransform.
  destruct w as [p errs dsk ups invs bar clk].
  destruct p as [conn tmpl cf bpt opts s3o nocdn cdno cdn cl].
  destruct opts as [dir inc exc bp prio html prog].
  cbn in Hpriority. subst prio.
  cbv beta iota delta [with_this with_options set_basePath this options priority
                       progress basePath directory include exclude htmlFiles
                       isConnected uploadOptions cloudfrontInvalidateOptions
                       basePathTransform s3Options noCdnizer cdnizerOptions cdnizer
                       client errors disk uploads invalidations progressBar clock].
  unfold uploadInPriorityOrder, prioritizeFiles.
  cbv beta iota delta [bindM gets ret this options priority default from_option id].
  destruct (removeTiers patterns files) as [tiers rest].
  cbn [map mapM]. cbv beta iota delta [bindM Promise_resolve_unbound throw].
  reflexivity.
Qed.

(** X20: with [priority] configured, a build pass over the assets of the
    compilation sends no upload request and no invalidation request: what
    it records is one error, the [TypeError] that [uploadInPriorityOrder]
    throws. *)
Theorem build_priority_sends_nothing (compiler : Compiler) (compilation : Compilation)
    (w : World) (item : string) (patterns : list RegExp) (kept : list File) :
  optionConfig_truthy (uploadOptions (this w) !! "Bucket") = true ->
  str_truthy (directory (options (this w))) = false ->
  noCdnizer (this w) = true ->
  priority (options (this w)) = Some patterns ->
  basePathTransform (this w) (basePath (options (this w))) = Fulfilled item ->
  filterAllowedFiles (this w)
    (map (fun name => {| name := name;
                         path := outputOptions_path compilation +:+ "/" +:+ name |})
       (assets compilation)) = Ok kept ->
  exists w' message,
    build remote compiler compilation w = (w', Ok tt) /\
    errors w' = errors w ++ [mkError "Error" ("S3Plugin: TypeError: " +:+ message)] /\
    uploads w' = uploads w /\
    invalidations w' = invalidations w.
Proof.
  destruct w as [p errs dsk ups invs bar clk].
  destruct p as [conn tmpl cf bpt opts s3o nocdn cdno cdn cl].
  destruct opts as [d inc exc bp prio html prog].
  cbn [this options uploadOptions directory noCdnizer priority basePathTransform
       basePath].
  intros Hbucket Hdir -> -> Htransform Hkept.
  unfold filterAllowedFiles in Hkept.
  unfold build, apply, connect.
  destruct conn;
    cbv beta iota zeta delta [bindM gets ret modify with_this with_options set_client
                              set_directory this options uploadOptions s3Options
                              isConnected directory REQUIRED_S3_UP_OPTS forallb];
    rewrite Hbucket, Hdir;
    cbv beta iota zeta delta [andb negb done bindM gets ret getAssetFiles then_
                              handleFiles changeUrls this noCdnizer lift];
    unfold filterAllowedFiles;
    match type of Hkept with
    | filterAllowedFiles_from ?p0 _ _ = _ =>
        match goal with
        | |- context [filterAllowedFiles_from ?q [] ?fs] =>
            rewrite (filterAllowedFiles_from_options q p0 fs [] eq_refl eq_refl), Hkept
        end
    end;
    cbv beta iota zeta delta [bindM ret then_];
    (erewrite uploadFiles_priority_run; [|reflexivity|exact Htransform]);
    cbv beta iota zeta delta [catch_ handleErrors bindM compileError modify throw ret
                              with_this with_options set_basePath this errors uploads
                              invalidations Error_toString err_name err_message];
    eexists _, _; split_and!; reflexivity.
Qed.





(** X22: with an [include] option that is truthy and of no rule shape,
    a build pass over at least one asset records one error, the
    invalid-rule error behind the prefix [S3Plugin: ], and sends no
    request. *)
Theorem build_invalid_include (compiler : Compiler) (compilation : Compilation)
    (w : World) (v : NonRule) (asset : string) (others : list string) :
  optionConfig_truthy (uploadOptions (this w) !! "Bucket") = true ->
  str_truthy (directory (options (this w))) = false ->
  noCdnizer (this w) = true ->
  include (options (this w)) = ROther v ->
  truthy (NonRule_val v) = true ->
  assets compilation = asset :: others ->
  exists w',
    build remote compiler compilation w = (w', Ok tt) /\
    errors w'
    = errors w ++ [mkError "Error" "S3Plugin: Error: Invalid include / exclude rule"] /\
    uploads w' = uploads w /\
    invalidations w' = invalidations w.
Proof.
  destruct w as [p errs dsk ups invs bar clk].
  destruct p as [conn tmpl cf bpt opts s3o nocdn cdno cdn cl].
  destruct opts as [d inc exc bp prio html prog].
  cbn [this options uploadOptions directory noCdnizer include].
  intros Hbucket Hdir -> -> Htruthy Hassets.
  unfold build, apply, connect.
  destruct conn;
    cbv beta iota zeta delta [bindM gets ret modify with_this with_options set_client
                              set_directory this options uploadOptions s3Options
                              isConnected directory REQUIRED_S3_UP_OPTS forallb];
    rewrite Hbucket, Hdir;
    cbv beta iota zeta delta [andb negb done bindM gets ret getAssetFiles then_
                              handleFiles changeUrls this noCdnizer lift];
    rewrite Hassets; cbn [map];
    unfold filterAllowedFiles; cbn [filterAllowedFiles_from];
    unfold isIncludeAndNotExclude; cbn [options include Rule_truthy];
    rewrite Htruthy;
    cbv beta iota zeta delta [testRule bind bindM ret then_ catch_ handleErrors
                              compileError modify throw errors uploads invalidations
                              Error_toString err_name err_message];
    eexists; split_and!; reflexivity.
Qed.

End PipelineProperties.

Section PipelineWitness.
#[local] Existing Instance Fixture.engine.
#[local] Existing Instance Fixture.host.
Import Fixture.

Lemma connect_once_witness :
  isConnected (this (fresh bare)) = false /\
  client (this (connect (fresh bare)).1) = Some (s3Options (this (fresh bare))) /\
  isConnected (this (connected bare)) = true /\
  connect (connected bare) = (connected bare, Ok tt).
Proof.
  split; [reflexivity|].
  split; [exact (proj1 (proj2 (connect_once (fresh bare))) eq_refl)|].
  split; [reflexivity|].
  exact (proj1 (connect_once (connected bare)) eq_refl).
Defined.

Lemma uploadFile_not_connected_witness :
  client (this (fresh bare)) = None /\
  exists e,
    uploadFile all_fulfilled "a.js" "/out/a.js" (fresh bare) = (fresh bare, Throw e) /\
    err_name e = "TypeError".
Proof.
  split; [reflexivity|].
  exact (uploadFile_not_connected all_fulfilled "a.js" "/out/a.js" (fresh bare) eq_refl).
Defined.

Lemma uploadFile_ContentType_witness :
  client (this (connected bare)) <> None /\
  default VUndefined
    ((resolveOption "a.js" "/out/a.js" <$> uploadOptions (this (connected bare)))
       !! "ContentType") = VUndefined /\
  mime_getType "a.js" = Some "application/javascript" /\
  exists request,
    uploads (uploadFile all_pending "a.js" "/out/a.js" (connected bare)).1 = [request] /\
    request !! "ContentType" = Some (VString "application/javascript").
Proof.
  assert (Hclient : client (this (connected bare)) <> None) by (vm_compute; discriminate).
  assert (Hundef : default VUndefined
            ((resolveOption "a.js" "/out/a.js" <$> uploadOptions (this (connected bare)))
               !! "ContentType") = VUndefined) by (vm_compute; reflexivity).
  assert (Hmime : mime_getType "a.js" = Some "application/javascript")
    by (vm_compute; reflexivity).
  split; [exact Hclient|]. split; [exact Hundef|]. split; [exact Hmime|].
  destruct (uploadFile_ContentType all_pending "a.js" "/out/a.js" (connected bare) Hclient)
    as (request & Hup & _ & Hinferred).
  exists request. split; [exact Hup|].
  apply (proj1 (Hinferred Hundef) _ Hmime). discriminate.
Defined.

Lemma uploadPriorityChunk_waits_witness :
  client (this (connected bare)) <> None /\
  exists w' p,
    uploadPriorityChunk all_fulfilled [a_js; b_css] (connected bare) = (w', Ok p) /\
    length (uploads w') = 2 /\
    exists l, p = Fulfilled l.
Proof.
  assert (Hclient : client (this (connected bare)) <> None) by (vm_compute; discriminate).
  split; [exact Hclient|].
  destruct (uploadPriorityChunk_waits all_fulfilled [a_js; b_css] (connected bare) Hclient)
    as (w' & p & Hrun & Hlen & Hfulfilled & _).
  exists w', p. split; [exact Hrun|]. split; [exact Hlen|].
  apply Hfulfilled. intros k _. reflexivity.
Defined.

Lemma uploadFiles_transform_not_fulfilled_witness :
  basePathTransform
    (this (connected (with_basePathTransform (fun _ => Rejected failure) bare)))
    (basePath (options
       (this (connected (with_basePathTransform (fun _ => Rejected failure) bare)))))
  = Rejected failure /\
  uploadFiles all_fulfilled [a_js]
    (connected (with_basePathTransform (fun _ => Rejected failure) bare))
  = (connected (with_basePathTransform (fun _ => Rejected failure) bare),
     Ok (Rejected failure)).
Proof.
  split; [reflexivity|].
  exact (proj2 (uploadFiles_transform_not_fulfilled all_fulfilled [a_js]
                  (connected (with_basePathTransform (fun _ => Rejected failure) bare)))
           failure eq_refl).
Defined.

Lemma transformBasePath_default_stable_witness :
  basePathTransform (this (connected (with_basePath "test" bare))) = DEFAULT_TRANSFORM /\
  (transformBasePath ;;; transformBasePath) (connected (with_basePath "test" bare))
  = transformBasePath (connected (with_basePath "test" bare)) /\
  basePath (options (this (transformBasePath (connected (with_basePath "test" bare))).1))
  = "test/".
Proof.
  split; [reflexivity|].
  destruct (transformBasePath_default_stable (connected (with_basePath "test" bare))
              eq_refl) as [Htwice Hpath].
  split; [exact Htwice|]. rewrite Hpath. vm_compute. reflexivity.
Defined.


Lemma handleFiles_invalidates_at_once_witness :
  upload_promise all_rejected 0 = Rejected failure /\
  exists w' p,
    handleFiles all_rejected [a_js]
      (connected (with_cloudfront {| DistributionId := DString "E123"; Items := ["/*"] |}
                    bare))
    = (w', Ok p) /\
    length (uploads w') = 1 /\
    map inv_DistributionId (invalidations w') = ["E123"].
Proof.
  split; [reflexivity|].
  assert (Hclient : client (this (connected (with_cloudfront
            {| DistributionId := DString "E123"; Items := ["/*"] |} bare))) <> None)
    by (vm_compute; discriminate).
  exact (handleFiles_invalidates_at_once all_rejected [a_js] [a_js]
           (connected (with_cloudfront
              {| DistributionId := DString "E123"; Items := ["/*"] |} bare))
           "" eq_refl eq_refl Hclient eq_refl eq_refl).
Defined.

Lemma build_priority_sends_nothing_witness :
  priority (options (this (fresh (with_priority [CSS_RE] bare)))) = Some [CSS_RE] /\
  exists w' message,
    build all_fulfilled compiler compilation (fresh (with_priority [CSS_RE] bare))
    = (w', Ok tt) /\
    errors w' = [mkError "Error" ("S3Plugin: TypeError: " +:+ message)] /\
    uploads w' = [] /\
    invalidations w' = [].
Proof.
  split; [reflexivity|].
  exact (build_priority_sends_nothing all_fulfilled compiler compilation
           (fresh (with_priority [CSS_RE] bare)) "" [CSS_RE]
           [a_js; b_css] eq_refl eq_refl eq_refl eq_refl eq_refl eq_refl).
Defined.


Lemma build_invalid_include_witness :
  include (options (this (fresh (with_rules (ROther (NNumber 42)) no_rule bare))))
  = ROther (NNumber 42) /\
  exists w',
    build all_fulfilled compiler compilation
      (fresh (with_rules (ROther (NNumber 42)) no_rule bare))
    = (w', Ok tt) /\
    errors w' = [mkError "Error" "S3Plugin: Error: Invalid include / exclude rule"] /\
    uploads w' = [] /\
    invalidations w' = [].
Proof.
  split; [reflexivity|].
  exact (build_invalid_include all_fulfilled compiler compilation
           (fresh (with_rules (ROther (NNumber 42)) no_rule bare)) (NNumber 42)
           "a.js" ["b.css"] eq_refl eq_refl eq_refl eq_refl eq_refl eq_refl).
Defined.

End PipelineWitness.

Section UnreadableWitness.
#[local] Existing Instance Fixture.engine.
#[local] Existing Instance Fixture.unreadable.
Import Fixture.

Lemma build_unreadable_directory_witness :
  directory (options (this (fresh (with_directory "/missing" bare)))) = Some "/missing" /\
  exists w',
    build all_fulfilled compiler compilation (fresh (with_directory "/missing" bare))
    = (w', Ok tt) /\
    errors w'
    = [mkError "Error"
         "S3Plugin: Error: ENOENT: no such file or directory, scandir '/missing/'"] /\
    uploads w' = [] /\
    invalidations w' = [].
Proof.
  split; [reflexivity|].
  assert (Hdir : "/missing" <> "") by discriminate.
  assert (Hname : "Error" <> "") by discriminate.
  assert (Hmessage :
            "ENOENT: no such file or directory, scandir '" +:+ "/missing/" +:+ "'" <> "")
    by discriminate.
  exact (build_unreadable_directory all_fulfilled compiler compilation
           (fresh (with_directory "/missing" bare)) "/missing" _
           eq_refl eq_refl Hdir eq_refl Hname Hmessage).
Defined.

End UnreadableWitness.
